(** * bolt: the API service (src/services/api.ts) and the template resolver

    A shallow embedding of [ApiService] and of the variable resolution that
    the specification describes for the requests this service hands out.

    Conventions of the embedding.
    - A JavaScript string is a [string]: a sequence of code units below 256
      (the Latin-1 range), on which [String.prototype.toLowerCase] acts unit
      by unit.  Every literal of the source is in that range.
    - A JavaScript number that is an integer is a [Z].
    - The promise an [async] method returns is modelled by its settled
      state, [Promise A]: fulfilled with a value or rejected with an [Error].
      [throw] inside an [async] body rejects the promise.
    - The network and the clock are inputs: a method that calls [fetch] once
      receives the settled outcome of that call; a method that reads
      [Date.now()] and [new Date().toISOString()] receives a [Clock].
    - [console.error] only writes to the console and is left out. *)

From Stdlib Require Import ZArith String Ascii List Bool Lia DecimalString.
From Stdlib Require DecimalPos DecimalZ.
From stdpp Require Import base option list gmap strings.
From Equations Require Import Equations.

Local Open Scope Z_scope.

(** ** JavaScript strings, promises and the outside world *)

Module Js.

(** The lower-case form of one code unit below 256: the letters A-Z and the
    Latin-1 capitals (192-222, without the multiplication sign 215) move up
    by 32; every other unit is its own lower-case form. *)
Definition toLowerCase_unit (c : ascii) : ascii :=
  let n := N_of_ascii c in
  if ((65 <=? n) && (n <=? 90)
      || (192 <=? n) && (n <=? 222) && negb (n =? 215))%N
  then ascii_of_N (n + 32)
  else c.

(** [String.prototype.toLowerCase]. *)
Fixpoint toLowerCase (s : string) : string :=
  match s with
  | EmptyString => EmptyString
  | String c s' => String (toLowerCase_unit c) (toLowerCase s')
  end.

(** [String.prototype.includes] with the default position 0. *)
Fixpoint includes (s search : string) : bool :=
  if String.prefix search s then true
  else match s with
       | EmptyString => false
       | String _ s' => includes s' search
       end.

(** [Number.prototype.toString] on an integer below 1e21 in absolute value,
    where JavaScript prints every digit. *)
Definition toString (z : Z) : string := NilZero.string_of_int (Z.to_int z).

Record Error := mkError { message : string }.

Inductive Promise (A : Type) : Type :=
| Fulfilled (value : A)
| Rejected (reason : Error).
Arguments Fulfilled {A} value.
Arguments Rejected {A} reason.

(** [await p] followed by the rest of the [async] body. *)
Definition await {A B} (p : Promise A) (k : A -> Promise B) : Promise B :=
  match p with
  | Fulfilled v => k v
  | Rejected e => Rejected e
  end.

Definition throw {A} (e : Error) : Promise A := Rejected e.

(** [try { body } catch (error) { handler }]. *)
Definition try_catch {A} (body : Promise A) (handler : Error -> Promise A)
  : Promise A :=
  match body with
  | Fulfilled v => Fulfilled v
  | Rejected e => handler e
  end.

(** The [Response] of a [fetch]: the two properties the service reads and
    the outcome of [response.json()], typed as the caller types it. *)
Record Response (A : Type) := mkResponse {
  ok : bool;
  status : Z;
  json : Promise A
}.
Arguments mkResponse {A} ok status json.
Arguments ok {A} r.
Arguments status {A} r.
Arguments json {A} r.

(** The settled outcome of one [fetch] call. *)
Definition Fetch (A : Type) : Type := Promise (Response A).

Record Clock := mkClock {
  Date_now : Z;            (* Date.now() *)
  toISOString : string     (* new Date().toISOString() *)
}.

End Js.

Import Js.

(** [x ← p; k] reads "const x = await p; k". *)
#[global] Instance Promise_ret : MRet Promise := @Fulfilled.
#[global] Instance Promise_bind : MBind Promise := fun A B k p => await p k.

(** ** The data types of ../types

    The interface declarations of [../types] are not part of the source
    tree.  Each record below has the fields that the object literals of
    api.ts write, with the meaning section 3 of the specification gives
    them. *)

(** Modelled from the spec: [interface Collection] of ../types, missing
    from the source tree; a listing entry, without the requests. *)
Module Collection.
Record t := mk {
  _id : string;
  name : string;
  description : string;
  size : Z;
  createdAt : string
}.
End Collection.

(** Modelled from the spec: [Partial<Collection>]; a field is named
    ([Some]) or left out. *)
Module PartialCollection.
Record t := mk {
  _id : option string;
  name : option string;
  description : option string;
  size : option Z;
  createdAt : option string
}.
End PartialCollection.

(** Modelled from the spec: [Omit<Collection, "_id" | "size" | "createdAt">],
    the argument of [createCollection].  The type hides three keys, but an
    object of this type may still carry them (a full collection passed
    through a variable is accepted), and the spread copies what the object
    carries.  [_id] is the one that reaches the result: [size] and
    [createdAt] are written after the spread. *)
Module NewCollection.
Record t := mk {
  name : string;
  description : string;
  _id : option string          (* carried although the type hides it *)
}.
End NewCollection.

(** Modelled from the spec: [interface HttpRequest] of ../types, missing
    from the source tree.  [pathVariables] is optional: the second mock
    request does not write it. *)
Module HttpRequest.
Record t := mk {
  _id : string;
  collectionId : string;
  name : string;
  method : string;
  url : string;
  headers : list (string * string);   (* own properties, insertion order *)
  body : string;
  bodyType : string;
  preScript : string;
  postScript : string;
  tests : string;
  pathVariables : option (gmap string string);
  createdAt : string;
  updatedAt : string
}.
End HttpRequest.

(** Modelled from the spec: [interface CollectionFull] of ../types, missing
    from the source tree; a collection with its ordered requests. *)
Module CollectionFull.
Record t := mk {
  _id : string;
  name : string;
  description : string;
  requests : list HttpRequest.t;
  createdAt : string
}.
End CollectionFull.

(** Modelled from the spec: [interface Environment] of ../types, missing
    from the source tree.  [updatedAt] is optional: no mock environment
    writes it. *)
Module Environment.
Record t := mk {
  _id : string;
  name : string;
  variables : gmap string string;
  isActive : bool;
  createdAt : string;
  updatedAt : option string
}.
End Environment.

(** Modelled from the spec: [Partial<Environment>]. *)
Module PartialEnvironment.
Record t := mk {
  _id : option string;
  name : option string;
  variables : option (gmap string string);
  isActive : option bool;
  createdAt : option string;
  updatedAt : option string
}.
End PartialEnvironment.

(** Modelled from the spec: [Omit<Environment, "_id" | "createdAt" |
    "updatedAt">], the argument of [createEnvironment].  An object of this
    type may still carry the hidden keys, and the spread copies what it
    carries.  [_id] and [updatedAt] reach the result: [createdAt] is
    written after the spread. *)
Module NewEnvironment.
Record t := mk {
  name : string;
  variables : gmap string string;
  isActive : bool;
  _id : option string;         (* carried although the type hides it *)
  updatedAt : option string    (* carried although the type hides it *)
}.
End NewEnvironment.

(** Modelled from the spec: [Partial<HttpRequest>], the [updates] of
    [updateRequest]; a field is named ([Some]) or left out. *)
Module PartialHttpRequest.
Record t := mk {
  _id : option string;
  collectionId : option string;
  name : option string;
  method : option string;
  url : option string;
  headers : option (list (string * string));
  body : option string;
  bodyType : option string;
  preScript : option string;
  postScript : option string;
  tests : option string;
  pathVariables : option (gmap string string);
  createdAt : option string;
  updatedAt : option string
}.
End PartialHttpRequest.

(** Modelled from the spec: [Omit<HttpRequest, "_id" | "createdAt" |
    "updatedAt">], the argument of [createRequest].  An object of this type
    may still carry the hidden keys, and the spread copies what it carries.
    [_id] is the one that reaches the result: [createdAt] and [updatedAt]
    are written after the spread. *)
Module NewHttpRequest.
Record t := mk {
  collectionId : string;
  name : string;
  method : string;
  url : string;
  headers : list (string * string);
  body : string;
  bodyType : string;
  preScript : string;
  postScript : string;
  tests : string;
  pathVariables : option (gmap string string);
  _id : option string          (* carried although the type hides it *)
}.
End NewHttpRequest.

(** ** class ApiService *)

Record ApiService := mkApiService {
  baseUrl : string;
  useMockData : bool
}.

(** [export const apiService = new ApiService()]. *)
Definition apiService : ApiService :=
  {| baseUrl := "http://localhost:3001/api"; useMockData := true |}.

(** *** Mock data *)

Definition getMockCollections : list Collection.t :=
  [ {| Collection._id := "1";
       Collection.name := "User Management API";
       Collection.description :=
         "APIs for user registration, authentication, and profile management";
       Collection.size := 8;
       Collection.createdAt := "2024-01-15T10:30:00Z" |};
    {| Collection._id := "2";
       Collection.name := "E-commerce API";
       Collection.description :=
         "Product catalog, shopping cart, and order management endpoints";
       Collection.size := 12;
       Collection.createdAt := "2024-01-20T14:45:00Z" |};
    {| Collection._id := "3";
       Collection.name := "Payment Gateway";
       Collection.description :=
         "Payment processing and transaction management APIs";
       Collection.size := 6;
       Collection.createdAt := "2024-01-25T09:15:00Z" |} ].

(** The line feed of the source's [\n] escapes. *)
Definition LF : string := String (ascii_of_N 10) EmptyString.

(** The double quote inside the source's single-quoted literals. *)
Definition DQ : string := String (ascii_of_N 34) EmptyString.

Definition getMockCollectionFull (collectionId : string) : CollectionFull.t :=
  let mockRequests : list HttpRequest.t :=
    [ {| HttpRequest._id := collectionId +:+ "_req_1";
         HttpRequest.collectionId := collectionId +:+ "_req_1";
         HttpRequest.name := "Get User Profile";
         HttpRequest.method := "GET";
         HttpRequest.url := "https://api.example.com/users/{{userId}}";
         HttpRequest.headers :=
           [ ("Authorization", "Bearer {{token}}");
             ("Content-Type", "application/json") ];
         HttpRequest.body := "";
         HttpRequest.bodyType := "none";
         HttpRequest.preScript := "";
         HttpRequest.postScript :=
           "pm.environment.set(" +:+ DQ +:+ "userId" +:+ DQ
           +:+ ", pm.response.json().id);";
         HttpRequest.tests :=
           "pm.test(" +:+ DQ +:+ "Status code is 200" +:+ DQ
           +:+ ", function () {" +:+ LF
           +:+ "    pm.response.to.have.status(200);" +:+ LF +:+ "});";
         HttpRequest.pathVariables := Some {[ "userId" := "123" ]};
         HttpRequest.createdAt := "2024-01-15T10:30:00Z";
         HttpRequest.updatedAt := "2024-01-15T10:30:00Z" |};
      {| HttpRequest._id := collectionId +:+ "_req_2";
         HttpRequest.collectionId := collectionId +:+ "_req_2";
         HttpRequest.name := "Create User";
         HttpRequest.method := "POST";
         HttpRequest.url := "https://api.example.com/users";
         HttpRequest.headers := [ ("Content-Type", "application/json") ];
         HttpRequest.body :=
           "{" +:+ LF
           +:+ "  " +:+ DQ +:+ "name" +:+ DQ +:+ ": "
           +:+ DQ +:+ "John Doe" +:+ DQ +:+ "," +:+ LF
           +:+ "  " +:+ DQ +:+ "email" +:+ DQ +:+ ": "
           +:+ DQ +:+ "john@example.com" +:+ DQ +:+ "," +:+ LF
           +:+ "  " +:+ DQ +:+ "password" +:+ DQ +:+ ": "
           +:+ DQ +:+ "securePassword123" +:+ DQ +:+ LF +:+ "}";
         HttpRequest.bodyType := "json";
         HttpRequest.preScript := "";
         HttpRequest.postScript := "";
         HttpRequest.tests :=
           "pm.test(" +:+ DQ +:+ "User created successfully" +:+ DQ
           +:+ ", function () {" +:+ LF
           +:+ "    pm.response.to.have.status(201);" +:+ LF
           +:+ "    pm.expect(pm.response.json()).to.have.property("
           +:+ DQ +:+ "id" +:+ DQ +:+ ");" +:+ LF +:+ "});";
         HttpRequest.pathVariables := None;
         HttpRequest.createdAt := "2024-01-15T11:00:00Z";
         HttpRequest.updatedAt := "2024-01-15T11:00:00Z" |} ] in
  {| CollectionFull._id := collectionId;
     CollectionFull.name := "User Management API";
     CollectionFull.description :=
       "APIs for user registration, authentication, and profile management";
     CollectionFull.requests := mockRequests;
     CollectionFull.createdAt := "2024-01-15T10:30:00Z" |}.

Definition getMockEnvironments : list Environment.t :=
  [ {| Environment._id := "1";
       Environment.name := "Development";
       Environment.variables :=
         {[ "baseUrl" := "https://api-dev.example.com";
            "token" := "dev-token-123";
            "userId" := "1" ]};
       Environment.isActive := true;
       Environment.createdAt := "2024-01-15T10:30:00Z";
       Environment.updatedAt := None |};
    {| Environment._id := "2";
       Environment.name := "Production";
       Environment.variables :=
         {[ "baseUrl" := "https://api.example.com";
            "token" := "prod-token-456";
            "userId" := "1" ]};
       Environment.isActive := false;
       Environment.createdAt := "2024-01-20T14:45:00Z";
       Environment.updatedAt := None |} ].

(** *** Methods

    [this] is the receiver.  No method assigns a field of [this]: the
    service has no state beyond its two constants. *)

Definition http_error {A} (response : Response A) : Error :=
  mkError ("HTTP error! status: " +:+ toString (status response)).

(** The body shared by every [try] block of the class:
    [const response = await fetch(...);
     if (!response.ok) throw new Error(...);
     return await response.json();] *)
Definition fetch_json {A} (net : Fetch A) : Promise A :=
  response ← net;
  if negb (ok response) then throw (http_error response)
  else json response.

Definition getCollections (this : ApiService) (net : Fetch (list Collection.t))
  : Promise (list Collection.t) :=
  if useMockData this then mret getMockCollections
  else try_catch (fetch_json net) (fun error => mret getMockCollections).

Definition getCollectionById (this : ApiService) (net : Fetch CollectionFull.t)
    (collectionId : string) : Promise CollectionFull.t :=
  if useMockData this then mret (getMockCollectionFull collectionId)
  else try_catch (fetch_json net)
         (fun error => mret (getMockCollectionFull collectionId)).

(** [{ _id: Date.now().toString(), ...collection, size: 0,
       createdAt: new Date().toISOString() }]: [_id] is written before the
    spread, so an [_id] that the argument carries replaces it; [size] and
    [createdAt] are written after the spread. *)
Definition created_collection (clock : Clock) (collection : NewCollection.t)
  : Collection.t :=
  {| Collection._id :=
       default (toString (Date_now clock)) (NewCollection._id collection);
     Collection.name := NewCollection.name collection;
     Collection.description := NewCollection.description collection;
     Collection.size := 0;
     Collection.createdAt := toISOString clock |}.

Definition createCollection (this : ApiService) (clock : Clock)
    (net : Fetch Collection.t) (collection : NewCollection.t)
  : Promise Collection.t :=
  if useMockData this then mret (created_collection clock collection)
  else try_catch (fetch_json net)
         (fun error => mret (created_collection clock collection)).

(** [Array.prototype.find]. *)
Fixpoint find {A} (p : A -> bool) (l : list A) : option A :=
  match l with
  | [] => None
  | x :: l' => if p x then Some x else find p l'
  end.

(** [{ ...collection, ...updates }] *)
Definition spread_Collection (collection : Collection.t)
    (updates : PartialCollection.t) : Collection.t :=
  {| Collection._id :=
       default (Collection._id collection) (PartialCollection._id updates);
     Collection.name :=
       default (Collection.name collection) (PartialCollection.name updates);
     Collection.description :=
       default (Collection.description collection)
               (PartialCollection.description updates);
     Collection.size :=
       default (Collection.size collection) (PartialCollection.size updates);
     Collection.createdAt :=
       default (Collection.createdAt collection)
               (PartialCollection.createdAt updates) |}.

Definition updateCollection (this : ApiService) (net : Fetch Collection.t)
    (collectionId : string) (updates : PartialCollection.t)
  : Promise Collection.t :=
  if useMockData this then
    let collections := getMockCollections in
    match find (fun c => String.eqb (Collection._id c) collectionId)
               collections with
    | None => throw (mkError "Collection not found")
    | Some collection => mret (spread_Collection collection updates)
    end
  else try_catch (fetch_json net) (fun error => throw error).

Definition deleteCollection (this : ApiService) (net : Fetch unit)
    (collectionId : string) : Promise unit :=
  if useMockData this then mret tt
  else try_catch
         (response ← net;
          if negb (ok response) then throw (http_error response)
          else mret tt)
         (fun error => throw error).

(** [{ _id: Date.now().toString(), ...request,
       createdAt: new Date().toISOString(),
       updatedAt: new Date().toISOString() }]; the clock is read once for
    [_id] and [createdAt] and once more for [updatedAt].  [_id] is written
    before the spread, so an [_id] that the argument carries replaces it;
    the two timestamps are written after the spread. *)
Definition created_request (clock clock' : Clock) (request : NewHttpRequest.t)
  : HttpRequest.t :=
  {| HttpRequest._id :=
       default (toString (Date_now clock)) (NewHttpRequest._id request);
     HttpRequest.collectionId := NewHttpRequest.collectionId request;
     HttpRequest.name := NewHttpRequest.name request;
     HttpRequest.method := NewHttpRequest.method request;
     HttpRequest.url := NewHttpRequest.url request;
     HttpRequest.headers := NewHttpRequest.headers request;
     HttpRequest.body := NewHttpRequest.body request;
     HttpRequest.bodyType := NewHttpRequest.bodyType request;
     HttpRequest.preScript := NewHttpRequest.preScript request;
     HttpRequest.postScript := NewHttpRequest.postScript request;
     HttpRequest.tests := NewHttpRequest.tests request;
     HttpRequest.pathVariables := NewHttpRequest.pathVariables request;
     HttpRequest.createdAt := toISOString clock;
     HttpRequest.updatedAt := toISOString clock' |}.

Definition createRequest (this : ApiService) (clock clock' : Clock)
    (net : Fetch HttpRequest.t) (collectionId : string)
    (request : NewHttpRequest.t) : Promise HttpRequest.t :=
  if useMockData this then mret (created_request clock clock' request)
  else try_catch (fetch_json net)
         (fun error => mret (created_request clock clock' request)).

(** [{ ...request, ...updates, updatedAt: new Date().toISOString() }] *)
Definition spread_HttpRequest (clock : Clock) (request : HttpRequest.t)
    (updates : PartialHttpRequest.t) : HttpRequest.t :=
  {| HttpRequest._id :=
       default (HttpRequest._id request) (PartialHttpRequest._id updates);
     HttpRequest.collectionId :=
       default (HttpRequest.collectionId request)
               (PartialHttpRequest.collectionId updates);
     HttpRequest.name :=
       default (HttpRequest.name request) (PartialHttpRequest.name updates);
     HttpRequest.method :=
       default (HttpRequest.method request)
               (PartialHttpRequest.method updates);
     HttpRequest.url :=
       default (HttpRequest.url request) (PartialHttpRequest.url updates);
     HttpRequest.headers :=
       default (HttpRequest.headers request)
               (PartialHttpRequest.headers updates);
     HttpRequest.body :=
       default (HttpRequest.body request) (PartialHttpRequest.body updates);
     HttpRequest.bodyType :=
       default (HttpRequest.bodyType request)
               (PartialHttpRequest.bodyType updates);
     HttpRequest.preScript :=
       default (HttpRequest.preScript request)
               (PartialHttpRequest.preScript updates);
     HttpRequest.postScript :=
       default (HttpRequest.postScript request)
               (PartialHttpRequest.postScript updates);
     HttpRequest.tests :=
       default (HttpRequest.tests request) (PartialHttpRequest.tests updates);
     HttpRequest.pathVariables :=
       match PartialHttpRequest.pathVariables updates with
       | Some m => Some m
       | None => HttpRequest.pathVariables request
       end;
     HttpRequest.createdAt :=
       default (HttpRequest.createdAt request)
               (PartialHttpRequest.createdAt updates);
     HttpRequest.updatedAt := toISOString clock |}.

Definition updateRequest (this : ApiService) (clock : Clock)
    (net : Fetch HttpRequest.t) (collectionId requestId : string)
    (updates : PartialHttpRequest.t) : Promise HttpRequest.t :=
  if useMockData this then
    let collection := getMockCollectionFull collectionId in
    match find (fun r => String.eqb (HttpRequest._id r) requestId)
               (CollectionFull.requests collection) with
    | None => throw (mkError "Request not found")
    | Some request => mret (spread_HttpRequest clock request updates)
    end
  else try_catch (fetch_json net) (fun error => throw error).

Definition deleteRequest (this : ApiService) (net : Fetch unit)
    (collectionId requestId : string) : Promise unit :=
  if useMockData this then mret tt
  else try_catch
         (response ← net;
          if negb (ok response) then throw (http_error response)
          else mret tt)
         (fun error => throw error).

(** The predicate of the two [filter] calls of [searchCollections]. *)
Definition matches_query (query : string) (collection : Collection.t) : bool :=
  includes (toLowerCase (Collection.name collection)) (toLowerCase query)
  || includes (toLowerCase (Collection.description collection))
              (toLowerCase query).

Definition searchCollections (this : ApiService)
    (net : Fetch (list Collection.t)) (query : string)
  : Promise (list Collection.t) :=
  if useMockData this then
    let collections := getMockCollections in
    mret (List.filter (matches_query query) collections)
  else try_catch (fetch_json net)
         (fun error =>
            let collections := getMockCollections in
            mret (List.filter (matches_query query) collections)).

Definition getEnvironments (this : ApiService)
    (net : Fetch (list Environment.t)) : Promise (list Environment.t) :=
  if useMockData this then mret getMockEnvironments
  else try_catch (fetch_json net) (fun error => mret getMockEnvironments).

(** [{ _id: Date.now().toString(), ...environment,
       createdAt: new Date().toISOString() }]: [_id] is written before the
    spread, so an [_id] that the argument carries replaces it, and an
    [updatedAt] that the argument carries is copied; [createdAt] is written
    after the spread. *)
Definition created_environment (clock : Clock) (environment : NewEnvironment.t)
  : Environment.t :=
  {| Environment._id :=
       default (toString (Date_now clock)) (NewEnvironment._id environment);
     Environment.name := NewEnvironment.name environment;
     Environment.variables := NewEnvironment.variables environment;
     Environment.isActive := NewEnvironment.isActive environment;
     Environment.createdAt := toISOString clock;
     Environment.updatedAt := NewEnvironment.updatedAt environment |}.

Definition createEnvironment (this : ApiService) (clock : Clock)
    (net : Fetch Environment.t) (environment : NewEnvironment.t)
  : Promise Environment.t :=
  if useMockData this then mret (created_environment clock environment)
  else try_catch (fetch_json net)
         (fun error => mret (created_environment clock environment)).

(** [{ ...environment, ...updates }] *)
Definition spread_Environment (environment : Environment.t)
    (updates : PartialEnvironment.t) : Environment.t :=
  {| Environment._id :=
       default (Environment._id environment) (PartialEnvironment._id updates);
     Environment.name :=
       default (Environment.name environment)
               (PartialEnvironment.name updates);
     Environment.variables :=
       default (Environment.variables environment)
               (PartialEnvironment.variables updates);
     Environment.isActive :=
       default (Environment.isActive environment)
               (PartialEnvironment.isActive updates);
     Environment.createdAt :=
       default (Environment.createdAt environment)
               (PartialEnvironment.createdAt updates);
     Environment.updatedAt :=
       match PartialEnvironment.updatedAt updates with
       | Some u => Some u
       | None => Environment.updatedAt environment
       end |}.

Definition updateEnvironment (this : ApiService) (net : Fetch Environment.t)
    (environmentId : string) (updates : PartialEnvironment.t)
  : Promise Environment.t :=
  if useMockData this then
    let environments := getMockEnvironments in
    match find (fun e => String.eqb (Environment._id e) environmentId)
               environments with
    | None => throw (mkError "Environment not found")
    | Some environment => mret (spread_Environment environment updates)
    end
  else try_catch (fetch_json net) (fun error => throw error).

Definition deleteEnvironment (this : ApiService) (net : Fetch unit)
    (environmentId : string) : Promise unit :=
  if useMockData this then mret tt
  else try_catch
         (response ← net;
          if negb (ok response) then throw (http_error response)
          else mret tt)
         (fun error => throw error).

(** ** Template Resolver

    The source tree holds no resolver: api.ts only stores the templates
    ([url], [headers], [body]) and the [pathVariables] of a request.  The
    definitions of this part follow section 4.2 of the specification: the
    placeholder grammar [{{identifier}}] with identifier
    [[A-Za-z_][A-Za-z0-9_]*], no nesting; the scopes in the order
    [pathVariables], then the active environment; one pass, the value
    substituted verbatim; an unresolved placeholder fails the resolution
    with the identifier and its location (field and offset); double braces
    that do not match the grammar are left untouched.  The fields are
    scanned in the order the section lists them: URL, each header value,
    body. *)

Local Open Scope nat_scope.

Definition is_upper (c : ascii) : bool :=
  ((65 <=? N_of_ascii c) && (N_of_ascii c <=? 90))%N.
Definition is_lower (c : ascii) : bool :=
  ((97 <=? N_of_ascii c) && (N_of_ascii c <=? 122))%N.
Definition is_digit (c : ascii) : bool :=
  ((48 <=? N_of_ascii c) && (N_of_ascii c <=? 57))%N.
Definition is_underscore (c : ascii) : bool := (N_of_ascii c =? 95)%N.

(** [[A-Za-z_]] *)
Definition is_ident_start (c : ascii) : bool :=
  is_upper c || is_lower c || is_underscore c.

(** [[A-Za-z0-9_]] *)
Definition is_ident_char (c : ascii) : bool :=
  is_ident_start c || is_digit c.

Fixpoint all_ident_chars (s : string) : bool :=
  match s with
  | EmptyString => true
  | String c s' => is_ident_char c && all_ident_chars s'
  end.

(** [[A-Za-z_][A-Za-z0-9_]*] *)
Definition is_identifier (s : string) : bool :=
  match s with
  | EmptyString => false
  | String c s' => is_ident_start c && all_ident_chars s'
  end.

(** The longest run of identifier characters at the head of [s], and what
    follows it. *)
Fixpoint span_ident (s : string) : string * string :=
  match s with
  | EmptyString => (EmptyString, EmptyString)
  | String c s' =>
      if is_ident_char c
      then let '(run, rest) := span_ident s' in (String c run, rest)
      else (EmptyString, s)
  end.

Definition open_brace : ascii := ascii_of_N 123.
Definition close_brace : ascii := ascii_of_N 125.

Definition strip (c : ascii) (s : string) : option string :=
  match s with
  | String c' s' => if Ascii.eqb c' c then Some s' else None
  | EmptyString => None
  end.

(** Modelled from the spec: the placeholder grammar of the resolver, which
    is missing from the source tree.  A placeholder at the head of [s]: two
    opening braces, an identifier, two closing braces; the result is the
    identifier and the text after the closing braces. *)
Definition match_placeholder (s : string) : option (string * string) :=
  s1 ← strip open_brace s;
  s2 ← strip open_brace s1;
  match s2 with
  | String c s3 =>
      if is_ident_start c then
        let '(run, after) := span_ident s3 in
        a1 ← strip close_brace after;
        rest ← strip close_brace a1;
        Some (String c run, rest)
      else None
  | EmptyString => None
  end.

Inductive Segment : Type :=
| Lit (c : ascii)
| Hole (name : string) (offset : nat).

Lemma strip_length c s s' :
  strip c s = Some s' -> String.length s = S (String.length s').
Proof.
  destruct s as [|c' t]; simpl; [discriminate|].
  destruct (Ascii.eqb c' c); [|discriminate].
  intros [= ->]. reflexivity.
Qed.

Lemma span_ident_length s :
  String.length (fst (span_ident s)) + String.length (snd (span_ident s))
  = String.length s.
Proof.
  induction s as [|c s IH]; simpl; [reflexivity|].
  destruct (is_ident_char c); simpl; [|reflexivity].
  destruct (span_ident s) as [run rest]. simpl in *. lia.
Qed.

Lemma match_placeholder_length s name rest :
  match_placeholder s = Some (name, rest) ->
  String.length s = String.length name + 4 + String.length rest.
Proof.
  unfold match_placeholder.
  destruct (strip open_brace s) as [s1|] eqn:E1; simpl; [|discriminate].
  destruct (strip open_brace s1) as [s2|] eqn:E2; simpl; [|discriminate].
  destruct s2 as [|c s3]; [discriminate|].
  destruct (is_ident_start c); [|discriminate].
  pose proof (span_ident_length s3) as Hlen.
  destruct (span_ident s3) as [run after]. simpl in Hlen.
  destruct (strip close_brace after) as [a1|] eqn:E3; simpl; [|discriminate].
  destruct (strip close_brace a1) as [r|] eqn:E4; simpl; [|discriminate].
  intros [= <- <-].
  apply strip_length in E1, E2, E3, E4. simpl in *. lia.
Qed.

(** [inspect x] keeps the equation between [x] and the pattern it is
    matched against. *)
Definition inspect {A : Type} (x : A) : { y : A | x = y } := exist _ x eq_refl.

(** Modelled from the spec: the scan of a templated field by the resolver,
    which is missing from the source tree.  The segments of the text, left
    to right: at each position a placeholder, if one starts there, else one
    literal character; [offset] is the position of [s] in the field. *)
Equations scan (offset : nat) (s : string) : list Segment
  by wf (String.length s) lt :=
scan offset EmptyString := [];
scan offset (String c s') with inspect (match_placeholder (String c s')) := {
  | exist _ (Some (name, rest)) _ =>
      Hole name offset :: scan (offset + String.length name + 4) rest;
  | exist _ None _ => Lit c :: scan (S offset) s' }.
Next Obligation.
  match goal with H : _ = Some _ |- _ =>
    apply match_placeholder_length in H; simpl in H end.
  lia.
Qed.

(** Modelled from the spec: the field of a [ResolutionError] location; the
    templated fields of a request are its URL, its header values and its
    body. *)
Inductive Field : Type :=
| FieldUrl
| FieldHeader (key : string)
| FieldBody.

(** Modelled from the spec: [ResolutionError{field, identifier}] with the
    offset of the placeholder in the field (sections 4.2 and 7). *)
Record ResolutionError := mkResolutionError {
  field : Field;
  identifier : string;
  offset : nat
}.

(** Modelled from the spec: [ResolvedRequest] of section 3; method, fully
    expanded URL, headers and body. *)
Module ResolvedRequest.
Record t := mk {
  method : string;
  url : string;
  headers : list (string * string);
  body : string
}.
End ResolvedRequest.

(** [A | ResolutionError] *)
Inductive Resolution (A : Type) : Type :=
| Resolved (value : A)
| ResolutionFailed (error : ResolutionError).
Arguments Resolved {A} value.
Arguments ResolutionFailed {A} error.

#[global] Instance Resolution_ret : MRet Resolution := @Resolved.
#[global] Instance Resolution_bind : MBind Resolution :=
  fun A B k r =>
    match r with
    | Resolved v => k v
    | ResolutionFailed e => ResolutionFailed e
    end.

(** The value the active environment gives a name, when there is an
    active environment and it binds the name. *)
Definition environment_variable (activeEnv : option Environment.t)
    (name : string) : option string :=
  match activeEnv with
  | Some env => Environment.variables env !! name
  | None => None
  end.

(** Modelled from the spec: the scope lookup of the resolver, which is
    missing from the source tree.  The scopes in precedence order:
    (1) [pathVariables], (2) the variables of the active environment.  The
    first scope that holds the name wins. *)
Definition lookup_scopes (pathVariables : gmap string string)
    (activeEnv : option Environment.t) (name : string) : option string :=
  match pathVariables !! name with
  | Some v => Some v
  | None => environment_variable activeEnv name
  end.

Section Resolve.

Variable pathVariables : gmap string string.
Variable activeEnv : option Environment.t.

Definition resolve_segment (f : Field) (seg : Segment) : Resolution string :=
  match seg with
  | Lit c => Resolved (String c EmptyString)
  | Hole name off =>
      match lookup_scopes pathVariables activeEnv name with
      | Some v => Resolved v
      | None => ResolutionFailed (mkResolutionError f name off)
      end
  end.

Fixpoint substitute (f : Field) (segs : list Segment) : Resolution string :=
  match segs with
  | [] => Resolved EmptyString
  | seg :: segs' =>
      v ← resolve_segment f seg;
      out ← substitute f segs';
      Resolved (v +:+ out)
  end.

(** The expansion of the text [s] that sits at [off] in the field [f]. *)
Definition resolve_text_from (f : Field) (off : nat) (s : string)
  : Resolution string :=
  substitute f (scan off s).

Definition resolve_text (f : Field) (s : string) : Resolution string :=
  resolve_text_from f 0 s.

Fixpoint resolve_headers (hs : list (string * string))
  : Resolution (list (string * string)) :=
  match hs with
  | [] => Resolved []
  | (key, template) :: hs' =>
      v ← resolve_text (FieldHeader key) template;
      out ← resolve_headers hs';
      Resolved ((key, v) :: out)
  end.

End Resolve.

(** Modelled from the spec: [resolve(request, pathVariables, activeEnv)
    -> ResolvedRequest | ResolutionError] of the Template Resolver, which
    is missing from the source tree.  The URL, then each header value, then
    the body; the first unresolved placeholder fails the resolution. *)
Definition resolve (request : HttpRequest.t)
    (pathVariables : gmap string string) (activeEnv : option Environment.t)
  : Resolution ResolvedRequest.t :=
  u ← resolve_text pathVariables activeEnv FieldUrl (HttpRequest.url request);
  hs ← resolve_headers pathVariables activeEnv (HttpRequest.headers request);
  b ← resolve_text pathVariables activeEnv FieldBody (HttpRequest.body request);
  Resolved {| ResolvedRequest.method := HttpRequest.method request;
              ResolvedRequest.url := u;
              ResolvedRequest.headers := hs;
              ResolvedRequest.body := b |}.

(** The resolution of a request under its own [pathVariables]. *)
Definition resolve_own (request : HttpRequest.t)
    (activeEnv : option Environment.t) : Resolution ResolvedRequest.t :=
  resolve request (default ∅ (HttpRequest.pathVariables request)) activeEnv.

(** ** Notions the statements below use *)

(** Two texts that differ at most in the case of their letters. *)
Definition equal_ignoring_case (s t : string) : Prop :=
  toLowerCase s = toLowerCase t.

(** [text] contains [query] as a case-insensitive substring: some substring
    of [text] equals [query] up to the case of letters. *)
Definition contains_ignoring_case (text query : string) : Prop :=
  ∃ before mid after,
    text = before +:+ mid +:+ after ∧ equal_ignoring_case mid query.

(** The ways the one [fetch] of a method can fail: the call rejects, the
    response is not ok, or its body does not parse. *)
Inductive fetch_failed {A : Type} : Fetch A -> Prop :=
| fetch_rejected e : fetch_failed (Rejected e)
| fetch_not_ok response : ok response = false -> fetch_failed (Fulfilled response)
| fetch_bad_json response e :
    json response = Rejected e -> fetch_failed (Fulfilled response).

(** What an update does to one field: the value the update names, or the
    old value when the update does not name the field. *)
Definition field_after {A : Type} (old : A) (named : option A) (new : A) : Prop :=
  match named with
  | Some v => new = v
  | None => new = old
  end.

Definition active_count (environments : list Environment.t) : nat :=
  length (List.filter Environment.isActive environments).

(** The text of a placeholder for [name]. *)
Definition placeholder (name : string) : string := "{{" +:+ name +:+ "}}".

(** A header as a field: its key names it, its value is the text. *)
Definition header_field (h : string * string) : Field * string :=
  let '(key, text) := h in (FieldHeader key, text).

(** The templated fields of a request, in scan order, and the same fields
    of a resolved request. *)
Definition templated_fields (request : HttpRequest.t) : list (Field * string) :=
  (FieldUrl, HttpRequest.url request)
  :: map header_field (HttpRequest.headers request)
  ++ [(FieldBody, HttpRequest.body request)].

Definition resolved_fields (r : ResolvedRequest.t) : list (Field * string) :=
  (FieldUrl, ResolvedRequest.url r)
  :: map header_field (ResolvedRequest.headers r)
  ++ [(FieldBody, ResolvedRequest.body r)].

(** The resolution of a list of fields, first to last. *)
Fixpoint resolve_fields (pathVariables : gmap string string)
    (activeEnv : option Environment.t) (fields : list (Field * string))
  : Resolution (list (Field * string)) :=
  match fields with
  | [] => Resolved []
  | (f, template) :: fields' =>
      v ← resolve_text pathVariables activeEnv f template;
      out ← resolve_fields pathVariables activeEnv fields';
      Resolved ((f, v) :: out)
  end.

(** A text that does not continue an identifier. *)
Definition not_ident_head (s : string) : Prop :=
  match s with
  | EmptyString => True
  | String c _ => is_ident_char c = false
  end.

(** Moving a text along its field moves the offsets of its holes, nothing
    else. *)
Definition reoffset (k : nat) (seg : Segment) : Segment :=
  match seg with
  | Lit c => Lit c
  | Hole name o => Hole name (k + o)
  end.

(** The same error, [k] further along its field. *)
Definition move_error (k : nat) (e : ResolutionError) : ResolutionError :=
  mkResolutionError (field e) (identifier e) (k + offset e).

(** The fetch succeeds with the parsed body [v]: the call fulfils, the
    response is ok and its body parses to [v]. *)
Definition fetch_returns {A : Type} (net : Fetch A) (v : A) : Prop :=
  ∃ response,
    net = Fulfilled response ∧ ok response = true
    ∧ json response = Fulfilled v.

(** The error a failing fetch leaves in the [catch] block: the reason of
    the rejected call, the HTTP error built from the status of a response
    that is not ok, or the reason the body does not parse. *)
Inductive fetch_fails_with {A : Type} : Fetch A -> Error -> Prop :=
| fails_rejected e : fetch_fails_with (Rejected e) e
| fails_not_ok response :
    ok response = false ->
    fetch_fails_with (Fulfilled response)
      (mkError ("HTTP error! status: " +:+ toString (status response)))
| fails_bad_json response e :
    ok response = true -> json response = Rejected e ->
    fetch_fails_with (Fulfilled response) e.

(** The error a failing [delete] leaves in the [catch] block; the body of
    the response is not read. *)
Inductive delete_fails_with : Fetch unit -> Error -> Prop :=
| delete_rejected e : delete_fails_with (Rejected e) e
| delete_not_ok response :
    ok response = false ->
    delete_fails_with (Fulfilled response)
      (mkError ("HTTP error! status: " +:+ toString (status response))).

(** ** Sample data for the statements

    The first mock request of a collection, a collection update that
    renames, an environment update that activates, and an environment that
    binds no token. *)

Definition get_user_profile (collectionId : string) : HttpRequest.t :=
  {| HttpRequest._id := collectionId +:+ "_req_1";
     HttpRequest.collectionId := collectionId +:+ "_req_1";
     HttpRequest.name := "Get User Profile";
     HttpRequest.method := "GET";
     HttpRequest.url := "https://api.example.com/users/{{userId}}";
     HttpRequest.headers :=
       [ ("Authorization", "Bearer {{token}}");
         ("Content-Type", "application/json") ];
     HttpRequest.body := "";
     HttpRequest.bodyType := "none";
     HttpRequest.preScript := "";
     HttpRequest.postScript :=
       "pm.environment.set(" +:+ DQ +:+ "userId" +:+ DQ
       +:+ ", pm.response.json().id);";
     HttpRequest.tests :=
       "pm.test(" +:+ DQ +:+ "Status code is 200" +:+ DQ
       +:+ ", function () {" +:+ LF
       +:+ "    pm.response.to.have.status(200);" +:+ LF +:+ "});";
     HttpRequest.pathVariables := Some {[ "userId" := "123" ]};
     HttpRequest.createdAt := "2024-01-15T10:30:00Z";
     HttpRequest.updatedAt := "2024-01-15T10:30:00Z" |}.

Definition development : Environment.t :=
  {| Environment._id := "1";
     Environment.name := "Development";
     Environment.variables :=
       {[ "baseUrl" := "https://api-dev.example.com";
          "token" := "dev-token-123";
          "userId" := "1" ]};
     Environment.isActive := true;
     Environment.createdAt := "2024-01-15T10:30:00Z";
     Environment.updatedAt := None |}.

Definition production : Environment.t :=
  {| Environment._id := "2";
     Environment.name := "Production";
     Environment.variables :=
       {[ "baseUrl" := "https://api.example.com";
          "token" := "prod-token-456";
          "userId" := "1" ]};
     Environment.isActive := false;
     Environment.createdAt := "2024-01-20T14:45:00Z";
     Environment.updatedAt := None |}.

Definition staging : Environment.t :=
  {| Environment._id := "3";
     Environment.name := "Staging";
     Environment.variables := {[ "baseUrl" := "https://api-stg.example.com" ]};
     Environment.isActive := false;
     Environment.createdAt := "2024-02-01T08:00:00Z";
     Environment.updatedAt := None |}.

Definition e_commerce : Collection.t :=
  {| Collection._id := "2";
     Collection.name := "E-commerce API";
     Collection.description :=
       "Product catalog, shopping cart, and order management endpoints";
     Collection.size := 12;
     Collection.createdAt := "2024-01-20T14:45:00Z" |}.

Definition user_management : Collection.t :=
  {| Collection._id := "1";
     Collection.name := "User Management API";
     Collection.description :=
       "APIs for user registration, authentication, and profile management";
     Collection.size := 8;
     Collection.createdAt := "2024-01-15T10:30:00Z" |}.

Definition rename_to (name : string) : PartialCollection.t :=
  {| PartialCollection._id := None;
     PartialCollection.name := Some name;
     PartialCollection.description := None;
     PartialCollection.size := None;
     PartialCollection.createdAt := None |}.

Definition activate : PartialEnvironment.t :=
  {| PartialEnvironment._id := None;
     PartialEnvironment.name := None;
     PartialEnvironment.variables := None;
     PartialEnvironment.isActive := Some true;
     PartialEnvironment.createdAt := None;
     PartialEnvironment.updatedAt := None |}.

(** A fetch that rejects: the backend cannot be reached. *)
Definition offline {A : Type} : Fetch A := Rejected (mkError "Failed to fetch").

(** The service once the backend is available: [useMockData] set to
    false. *)
Definition backendService : ApiService :=
  {| baseUrl := "http://localhost:3001/api"; useMockData := false |}.

(** A response with the given status and body; ok for the statuses 200 to
    299, as [Response.ok] is. *)
Definition respond {A : Type} (code : Z) (body : Promise A) : Fetch A :=
  Fulfilled (mkResponse ((200 <=? code)%Z && (code <=? 299)%Z) code body).

Definition no_request_updates : PartialHttpRequest.t :=
  {| PartialHttpRequest._id := None;
     PartialHttpRequest.collectionId := None;
     PartialHttpRequest.name := None;
     PartialHttpRequest.method := None;
     PartialHttpRequest.url := None;
     PartialHttpRequest.headers := None;
     PartialHttpRequest.body := None;
     PartialHttpRequest.bodyType := None;
     PartialHttpRequest.preScript := None;
     PartialHttpRequest.postScript := None;
     PartialHttpRequest.tests := None;
     PartialHttpRequest.pathVariables := None;
     PartialHttpRequest.createdAt := None;
     PartialHttpRequest.updatedAt := None |}.

Definition list_users : NewHttpRequest.t :=
  {| NewHttpRequest.collectionId := "1";
     NewHttpRequest.name := "List Users";
     NewHttpRequest.method := "GET";
     NewHttpRequest.url := "https://api.example.com/users";
     NewHttpRequest.headers := [];
     NewHttpRequest.body := "";
     NewHttpRequest.bodyType := "none";
     NewHttpRequest.preScript := "";
     NewHttpRequest.postScript := "";
     NewHttpRequest.tests := "";
     NewHttpRequest.pathVariables := None;
     NewHttpRequest._id := None |}.

(** A request whose URL holds two placeholders. *)
Definition two_placeholders : HttpRequest.t :=
  {| HttpRequest._id := "r";
     HttpRequest.collectionId := "1";
     HttpRequest.name := "Two placeholders";
     HttpRequest.method := "GET";
     HttpRequest.url := "{{a}}/{{b}}";
     HttpRequest.headers := [];
     HttpRequest.body := "";
     HttpRequest.bodyType := "none";
     HttpRequest.preScript := "";
     HttpRequest.postScript := "";
     HttpRequest.tests := "";
     HttpRequest.pathVariables := None;
     HttpRequest.createdAt := "2024-01-15T10:30:00Z";
     HttpRequest.updatedAt := "2024-01-15T10:30:00Z" |}.

(** A full collection handed to [createCollection]: it carries [_id]. *)
Definition copy_of_user_management : NewCollection.t :=
  {| NewCollection.name := "User Management API";
     NewCollection.description := "";
     NewCollection._id := Some "1" |}.

Definition billing : NewCollection.t :=
  {| NewCollection.name := "Billing";
     NewCollection.description := "";
     NewCollection._id := None |}.

Definition new_staging : NewEnvironment.t :=
  {| NewEnvironment.name := "Staging";
     NewEnvironment.variables := ∅;
     NewEnvironment.isActive := false;
     NewEnvironment._id := None;
     NewEnvironment.updatedAt := None |}.

Definition instant : Clock := mkClock 1700000000000 "2023-11-14T22:13:20.000Z".

(** * Properties of the API service *)

(** ** Strings *)

Lemma append_cons c s t : String c s +:+ t = String c (s +:+ t).
Proof. reflexivity. Qed.

Lemma append_empty_l t : EmptyString +:+ t = t.
Proof. reflexivity. Qed.

Lemma append_empty_r s : s +:+ EmptyString = s.
Proof. induction s as [|c s IH]; [reflexivity|]. by rewrite append_cons, IH. Qed.

Lemma append_assoc s t u : (s +:+ t) +:+ u = s +:+ (t +:+ u).
Proof.
  induction s as [|c s IH]; [reflexivity|].
  by rewrite !append_cons, IH.
Qed.

Lemma append_length s t :
  String.length (s +:+ t) = (String.length s + String.length t)%nat.
Proof.
  induction s as [|c s IH]; [reflexivity|].
  rewrite append_cons. simpl. by rewrite IH.
Qed.

Lemma prefix_spec p s : String.prefix p s = true ↔ ∃ t, s = p +:+ t.
Proof.
  revert s. induction p as [|c p IH]; intros s.
  - split; [|by destruct s].
    intros _. by exists s.
  - destruct s as [|d s]; simpl.
    + split; [discriminate|]. intros [t Ht]. discriminate.
    + destruct (ascii_dec c d) as [->|Hne].
      * rewrite IH. split; intros [t Ht]; exists t.
        -- by rewrite append_cons, Ht.
        -- rewrite append_cons in Ht. by injection Ht.
      * split; [discriminate|]. intros [t Ht].
        rewrite append_cons in Ht. injection Ht as Hc _. congruence.
Qed.

Lemma includes_unfold s q :
  includes s q =
  if String.prefix q s then true
  else match s with
       | EmptyString => false
       | String _ s' => includes s' q
       end.
Proof. by destruct s. Qed.

Lemma includes_spec s q :
  includes s q = true ↔ ∃ a b, s = a +:+ q +:+ b.
Proof.
  induction s as [|c s IH]; rewrite includes_unfold.
  - destruct (String.prefix q EmptyString) eqn:Hp.
    + apply prefix_spec in Hp as [t Ht]. split; [|done].
      intros _. exists EmptyString, t. by rewrite append_empty_l.
    + split; [discriminate|]. intros (a & b & Hab).
      destruct a; [|discriminate].
      rewrite append_empty_l in Hab.
      assert (String.prefix q EmptyString = true) by (apply prefix_spec; eauto).
      congruence.
  - destruct (String.prefix q (String c s)) eqn:Hp.
    + apply prefix_spec in Hp as [t Ht]. split; [|done].
      intros _. exists EmptyString, t. by rewrite append_empty_l.
    + rewrite IH. split.
      * intros (a & b & ->). exists (String c a), b. by rewrite append_cons.
      * intros (a & b & Hab). destruct a as [|d a].
        -- rewrite append_empty_l in Hab.
           assert (String.prefix q (String c s) = true)
             by (apply prefix_spec; eauto).
           congruence.
        -- rewrite append_cons in Hab. injection Hab as _ ->. eauto.
Qed.

Lemma includes_empty s : includes s EmptyString = true.
Proof. destruct s; reflexivity. Qed.

Lemma toLowerCase_append s t :
  toLowerCase (s +:+ t) = toLowerCase s +:+ toLowerCase t.
Proof.
  induction s as [|c s IH]; [reflexivity|].
  rewrite append_cons. simpl. by rewrite IH, append_cons.
Qed.

Lemma toLowerCase_split s x y :
  toLowerCase s = x +:+ y →
  ∃ a b, s = a +:+ b ∧ toLowerCase a = x ∧ toLowerCase b = y.
Proof.
  revert s. induction x as [|c x IH]; intros s Hs.
  - exists EmptyString, s. by rewrite !append_empty_l in *.
  - destruct s as [|d s]; [discriminate|].
    rewrite append_cons in Hs. simpl in Hs. injection Hs as Hd Hs.
    destruct (IH _ Hs) as (a & b & -> & Ha & Hb).
    exists (String d a), b. rewrite append_cons. simpl. by rewrite Hd, Ha.
Qed.

(** The test of [searchCollections] on one text decides
    [contains_ignoring_case]. *)
Lemma includes_toLowerCase text query :
  includes (toLowerCase text) (toLowerCase query) = true
  ↔ contains_ignoring_case text query.
Proof.
  rewrite includes_spec. unfold contains_ignoring_case, equal_ignoring_case.
  split.
  - intros (x & y & Hxy).
    apply toLowerCase_split in Hxy as (a & rest & -> & Ha & Hrest).
    apply toLowerCase_split in Hrest as (mid & b & -> & Hmid & Hb).
    by exists a, mid, b.
  - intros (a & mid & b & -> & Hmid).
    exists (toLowerCase a), (toLowerCase b).
    by rewrite !toLowerCase_append, Hmid.
Qed.

Lemma matches_query_spec query c :
  matches_query query c = true
  ↔ contains_ignoring_case (Collection.name c) query
    ∨ contains_ignoring_case (Collection.description c) query.
Proof.
  unfold matches_query.
  by rewrite orb_true_iff, !includes_toLowerCase.
Qed.

Lemma filter_sublist {A} (p : A → bool) (l : list A) :
  sublist (List.filter p l) l.
Proof.
  induction l as [|x l IH]; simpl; [constructor|].
  destruct (p x); by constructor.
Qed.

Lemma filter_all {A} (p : A → bool) (l : list A) :
  (∀ x, p x = true) → List.filter p l = l.
Proof.
  intros Hp. induction l as [|x l IH]; simpl; [done|].
  by rewrite Hp, IH.
Qed.

(** ** Promises *)

Lemma fetch_json_failed {A} (net : Fetch A) :
  fetch_failed net → ∃ e, fetch_json net = Rejected e.
Proof.
  unfold fetch_json.
  intros [e|response Hok|response e Hjson]; simpl.
  - by exists e.
  - rewrite Hok. simpl. by eexists.
  - destruct (ok response); simpl; [|by eexists].
    rewrite Hjson. by exists e.
Qed.

Lemma try_catch_fulfilled {A} (body : Promise A) (fallback : A) :
  ∃ v, try_catch body (fun _ => mret fallback) = Fulfilled v
       ∧ ((∃ e, body = Rejected e) → v = fallback).
Proof.
  destruct body as [v|e]; simpl.
  - exists v. split; [done|]. by intros [e [=]].
  - by exists fallback.
Qed.

(** A method of the shape [if (mock) return m; try { fetch } catch { return m }]
    always fulfils, with [m] whenever the fetch fails. *)
Lemma fallback_fulfilled {A} (mock : bool) (net : Fetch A) (m : A) :
  ∃ v, (if mock then mret m
        else try_catch (fetch_json net) (fun _ => mret m)) = Fulfilled v
       ∧ (mock = true ∨ fetch_failed net → v = m).
Proof.
  destruct mock.
  - by exists m.
  - destruct (try_catch_fulfilled (fetch_json net) m) as (v & Hv & Hfail).
    exists v. split; [done|].
    intros [[=]|Hnet]. apply Hfail. by apply fetch_json_failed.
Qed.

(** ** C9: the two list queries never reject *)

(** C9.  [getCollections] and [getEnvironments] never reject: whatever the
    receiver's mode and whatever the outcome of the fetch, the promise is
    fulfilled with a list, and that list is the fixed mock data whenever the
    fetch rejects, answers with a status that is not ok, or carries a body
    that does not parse. *)
Theorem getCollections_getEnvironments_never_reject (this : ApiService) :
  (∀ net, ∃ collections,
      getCollections this net = Fulfilled collections
      ∧ (fetch_failed net → collections = getMockCollections))
  ∧ (∀ net, ∃ environments,
      getEnvironments this net = Fulfilled environments
      ∧ (fetch_failed net → environments = getMockEnvironments)).
Proof.
  split; intros net.
  - destruct (fallback_fulfilled (useMockData this) net getMockCollections)
      as (v & Hv & Hm).
    exists v. split; [exact Hv|]. intros Hf. apply Hm. by right.
  - destruct (fallback_fulfilled (useMockData this) net getMockEnvironments)
      as (v & Hv & Hm).
    exists v. split; [exact Hv|]. intros Hf. apply Hm. by right.
Qed.

(** ** C8: search in mock mode *)

(** C8.  In mock mode [searchCollections query] is fulfilled with exactly
    the collections of [getCollections] whose name or description contains
    [query] as a case-insensitive substring, in the order [getCollections]
    lists them; the empty query gives every collection. *)
Theorem searchCollections_mock_spec (this : ApiService)
    (net net' : Fetch (list Collection.t)) (query : string)
    (all : list Collection.t) :
  useMockData this = true →
  getCollections this net' = Fulfilled all →
  ∃ found,
    searchCollections this net query = Fulfilled found
    ∧ (∀ c, In c found ↔
            In c all
            ∧ (contains_ignoring_case (Collection.name c) query
               ∨ contains_ignoring_case (Collection.description c) query))
    ∧ sublist found all
    ∧ (query = EmptyString → found = all).
Proof.
  unfold searchCollections, getCollections. intros -> [= <-].
  eexists. split; [reflexivity|]. split; [|split].
  - intros c. by rewrite filter_In, matches_query_spec.
  - apply filter_sublist.
  - intros ->. apply filter_all. intros c.
    unfold matches_query. simpl. by rewrite includes_empty.
Qed.

Lemma searchCollections_mock_spec_witness :
  ∃ found,
    searchCollections apiService offline "PAY" = Fulfilled found
    ∧ (∀ c, In c found ↔
            In c getMockCollections
            ∧ (contains_ignoring_case (Collection.name c) "PAY"
               ∨ contains_ignoring_case (Collection.description c) "PAY"))
    ∧ sublist found getMockCollections
    ∧ ("PAY" = EmptyString → found = getMockCollections).
Proof.
  apply (searchCollections_mock_spec apiService offline offline "PAY"
           getMockCollections);
    reflexivity.
Defined.

(** ** C10: update of a collection in mock mode *)

Lemma find_Some {A} (p : A → bool) (l : list A) (x : A) :
  find p l = Some x → In x l ∧ p x = true.
Proof.
  induction l as [|y l IH]; simpl; [discriminate|].
  destruct (p y) eqn:Hp.
  - intros [= ->]. auto.
  - intros H. destruct (IH H). auto.
Qed.

Lemma find_None {A} (p : A → bool) (l : list A) :
  find p l = None → ∀ x, In x l → p x = false.
Proof.
  induction l as [|y l IH]; simpl; [done|].
  destruct (p y) eqn:Hp; [discriminate|].
  intros H x [<-|Hx]; auto.
Qed.

(** The mock collections carry pairwise distinct identifiers. *)
Lemma getMockCollections_ids_NoDup :
  NoDup (map Collection._id getMockCollections).
Proof. apply (bool_decide_unpack _). by vm_compute. Qed.

Lemma find_by_id_unique (c : Collection.t) :
  In c getMockCollections →
  find (fun c' => String.eqb (Collection._id c') (Collection._id c))
       getMockCollections = Some c.
Proof.
  simpl. intros [<-|[<-|[<-|[]]]]; reflexivity.
Qed.

(** C10.  In mock mode [updateCollection collectionId updates] rejects
    exactly when no known collection has [_id = collectionId], and then the
    error message is "Collection not found"; otherwise it is fulfilled with
    that collection in which every field named in [updates] has the value
    [updates] gives and every other field is unchanged. *)
Theorem updateCollection_mock_spec (this : ApiService)
    (net : Fetch Collection.t) (net' : Fetch (list Collection.t))
    (collectionId : string) (updates : PartialCollection.t)
    (known : list Collection.t) :
  useMockData this = true →
  getCollections this net' = Fulfilled known →
  ((∃ e, updateCollection this net collectionId updates = Rejected e)
   ↔ ¬ ∃ c, In c known ∧ Collection._id c = collectionId)
  ∧ (∀ e, updateCollection this net collectionId updates = Rejected e →
          message e = "Collection not found")
  ∧ (∀ c, In c known → Collection._id c = collectionId →
      ∃ r, updateCollection this net collectionId updates = Fulfilled r
        ∧ field_after (Collection._id c) (PartialCollection._id updates)
                      (Collection._id r)
        ∧ field_after (Collection.name c) (PartialCollection.name updates)
                      (Collection.name r)
        ∧ field_after (Collection.description c)
                      (PartialCollection.description updates)
                      (Collection.description r)
        ∧ field_after (Collection.size c) (PartialCollection.size updates)
                      (Collection.size r)
        ∧ field_after (Collection.createdAt c)
                      (PartialCollection.createdAt updates)
                      (Collection.createdAt r)).
Proof.
  unfold updateCollection, getCollections. intros -> [= <-].
  split; [|split].
  - destruct (find _ getMockCollections) as [c|] eqn:Hfind.
    + apply find_Some in Hfind as [Hin Hid]. apply String.eqb_eq in Hid.
      split; [by intros [e [=]]|]. intros Hno. destruct Hno. eauto.
    + split; [|by eexists]. intros _ (c & Hin & Hid).
      pose proof (find_None _ _ Hfind c Hin) as Hne. simpl in Hne.
      apply String.eqb_neq in Hne. done.
  - destruct (find _ getMockCollections); [discriminate|].
    by intros e [= <-].
  - intros c Hin <-. rewrite (find_by_id_unique c Hin).
    eexists. split; [reflexivity|].
    unfold field_after, spread_Collection. simpl.
    destruct updates as [[?|] [?|] [?|] [?|] [?|]]; simpl; done.
Qed.

Lemma updateCollection_mock_spec_witness :
  ∃ r,
    updateCollection apiService offline "2" (rename_to "Shop API") = Fulfilled r
    ∧ Collection.name r = "Shop API"
    ∧ Collection.size r = 12%Z.
Proof.
  destruct (updateCollection_mock_spec apiService offline offline "2"
              (rename_to "Shop API") getMockCollections eq_refl eq_refl)
    as (_ & _ & Hframe).
  destruct (Hframe e_commerce) as (r & Hr & _ & Hname & _ & Hsize & _).
  - simpl. auto.
  - reflexivity.
  - exists r. simpl in Hname, Hsize. auto.
Defined.

(** ** C1: the size of a collection *)

(** C1 fails as stated: [getCollections] reports size 8 for the collection
    "1", and [getCollectionById "1"] returns two requests. *)
Lemma size_is_not_request_count :
  ¬ (∀ collections c full,
        getCollections apiService offline = Fulfilled collections →
        In c collections →
        getCollectionById apiService offline (Collection._id c)
        = Fulfilled full →
        Collection.size c = Z.of_nat (length (CollectionFull.requests full))).
Proof.
  intros Hclaim.
  specialize (Hclaim getMockCollections user_management
                (getMockCollectionFull "1") eq_refl).
  simpl in Hclaim. specialize (Hclaim (or_introl eq_refl) eq_refl).
  discriminate.
Qed.

(** C1, amended.  In mock mode [size] is a stored number that is not
    derived from the requests: [createCollection] fulfils with size 0,
    [getCollections] reports the sizes 8, 12 and 6 for the collections "1",
    "2" and "3", and [getCollectionById] returns the collection of the id it
    is asked for with exactly two requests, whatever that id is. *)
Theorem collection_size_is_stored (this : ApiService) :
  useMockData this = true →
  (∀ clock net collection,
      ∃ c, createCollection this clock net collection = Fulfilled c
           ∧ Collection.size c = 0%Z)
  ∧ (∀ net,
      ∃ cs, getCollections this net = Fulfilled cs
            ∧ map (fun c => (Collection._id c, Collection.size c)) cs
              = [("1", 8%Z); ("2", 12%Z); ("3", 6%Z)])
  ∧ (∀ net collectionId,
      ∃ full, getCollectionById this net collectionId = Fulfilled full
              ∧ CollectionFull._id full = collectionId
              ∧ length (CollectionFull.requests full) = 2%nat).
Proof.
  unfold createCollection, getCollections, getCollectionById. intros ->.
  split; [|split].
  - intros clock net collection. by eexists.
  - intros net. by eexists.
  - intros net collectionId. by eexists.
Qed.

Lemma collection_size_is_stored_witness :
  ∃ c,
    createCollection apiService
      (mkClock 1700000000000 "2023-11-14T22:13:20.000Z") offline
      {| NewCollection.name := "Billing"; NewCollection.description := "";
         NewCollection._id := None |}
    = Fulfilled c
    ∧ Collection.size c = 0%Z.
Proof.
  destruct (collection_size_is_stored apiService eq_refl) as (Hcreate & _).
  apply Hcreate.
Defined.

(** ** C2: active environments *)

(** C2 fails as stated: activating the environment "2" through
    [updateEnvironment] returns it active, and the environment "1" that
    [getEnvironments] lists is still active: no other environment is
    deactivated. *)
Lemma updateEnvironment_does_not_deactivate_others :
  ¬ (∀ e environments other,
        updateEnvironment apiService offline "2" activate = Fulfilled e →
        getEnvironments apiService offline = Fulfilled environments →
        In other environments →
        Environment._id other ≠ Environment._id e →
        Environment.isActive other = false).
Proof.
  intros Hclaim.
  specialize (Hclaim _ getMockEnvironments development eq_refl eq_refl).
  simpl in Hclaim.
  specialize (Hclaim (or_introl eq_refl) ltac:(discriminate)).
  discriminate.
Qed.

(** C2, amended.  In mock mode every list that [getEnvironments] returns
    holds at most one active environment, and the environment operations
    leave that list alone, since they store nothing: [updateEnvironment]
    is fulfilled with the environment it found, in which [isActive] is the
    value [updates] names, or the old value when [updates] does not name
    it; [createEnvironment] is fulfilled with an environment that is active
    exactly when its argument is; [deleteEnvironment] is fulfilled with no
    value.  None of them deactivates another environment. *)
Theorem environments_mock_at_most_one_active (this : ApiService) :
  useMockData this = true →
  (∀ net, ∃ es, getEnvironments this net = Fulfilled es ∧ active_count es ≤ 1)
  ∧ (∀ net environmentId updates e,
      updateEnvironment this net environmentId updates = Fulfilled e →
      ∃ old, In old getMockEnvironments
             ∧ Environment._id old = environmentId
             ∧ field_after (Environment.isActive old)
                           (PartialEnvironment.isActive updates)
                           (Environment.isActive e))
  ∧ (∀ clock net environment,
      ∃ e, createEnvironment this clock net environment = Fulfilled e
           ∧ Environment.isActive e = NewEnvironment.isActive environment)
  ∧ (∀ net environmentId,
      deleteEnvironment this net environmentId = Fulfilled tt).
Proof.
  unfold getEnvironments, updateEnvironment, createEnvironment,
    deleteEnvironment.
  intros ->. split; [|split; [|split]].
  - intros net. eexists. split; [reflexivity|]. by vm_compute.
  - intros net environmentId updates e.
    destruct (find _ getMockEnvironments) as [old|] eqn:Hfind; [|discriminate].
    apply find_Some in Hfind as [Hin Hid]. apply String.eqb_eq in Hid.
    intros [= <-]. exists old. split; [done|]. split; [done|].
    unfold field_after. simpl.
    by destruct (PartialEnvironment.isActive updates).
  - intros clock net environment. by eexists.
  - done.
Qed.

Lemma environments_mock_at_most_one_active_witness :
  ∃ es,
    getEnvironments apiService offline = Fulfilled es
    ∧ active_count es ≤ 1.
Proof.
  destruct (environments_mock_at_most_one_active apiService eq_refl)
    as (Hlist & _).
  apply Hlist.
Defined.

(** * Properties of the template resolver *)

(** ** The scanner *)

Lemma scan_step off s :
  scan off s =
  match s with
  | EmptyString => []
  | String c s' =>
      match match_placeholder s with
      | Some (name, rest) =>
          Hole name off :: scan (off + String.length name + 4) rest
      | None => Lit c :: scan (S off) s'
      end
  end.
Proof.
  destruct s as [|c s']; [by rewrite scan_equation_1|].
  rewrite scan_equation_2.
  destruct (inspect (match_placeholder (String c s'))) as [[[name rest]|] e].
  - by rewrite scan_clause_2_equation_1, e.
  - by rewrite scan_clause_2_equation_2, e.
Qed.

Lemma strip_spec c s s' : strip c s = Some s' ↔ s = String c s'.
Proof.
  destruct s as [|d s]; simpl; [by split|].
  destruct (Ascii.eqb d c) eqn:E.
  - apply Ascii.eqb_eq in E as ->. split; congruence.
  - apply Ascii.eqb_neq in E. split; [discriminate|]. congruence.
Qed.

Lemma span_ident_spec s run rest :
  span_ident s = (run, rest) →
  s = run +:+ rest ∧ all_ident_chars run = true ∧ not_ident_head rest.
Proof.
  revert run rest. induction s as [|c s IH]; simpl; intros run rest.
  - by intros [= <- <-].
  - destruct (is_ident_char c) eqn:Hc.
    + destruct (span_ident s) as [run' rest'].
      intros [= <- <-]. destruct (IH _ _ eq_refl) as (-> & Hrun & Hrest).
      rewrite append_cons. simpl. by rewrite Hc, Hrun.
    + by intros [= <- <-].
Qed.

Lemma span_ident_run run rest :
  all_ident_chars run = true → not_ident_head rest →
  span_ident (run +:+ rest) = (run, rest).
Proof.
  intros Hrun Hrest. induction run as [|c run IH].
  - rewrite append_empty_l. destruct rest as [|d rest]; simpl in *; [done|].
    by rewrite Hrest.
  - simpl in Hrun. apply andb_true_iff in Hrun as [Hc Hrun].
    rewrite append_cons. simpl. by rewrite Hc, (IH Hrun).
Qed.

Lemma span_ident_append s tail :
  not_ident_head tail →
  span_ident (s +:+ tail) = (fst (span_ident s), snd (span_ident s) +:+ tail).
Proof.
  intros Htail.
  destruct (span_ident s) as [run rest] eqn:Hs.
  apply span_ident_spec in Hs as (-> & Hrun & Hrest). simpl.
  rewrite append_assoc. apply span_ident_run; [done|].
  destruct rest; [by rewrite append_empty_l|by rewrite append_cons].
Qed.

Lemma placeholder_unfold name after :
  placeholder name +:+ after
  = String open_brace (String open_brace
      (name +:+ String close_brace (String close_brace after))).
Proof.
  unfold placeholder. rewrite !append_assoc. reflexivity.
Qed.

Lemma close_brace_not_ident after :
  not_ident_head (String close_brace after).
Proof. reflexivity. Qed.

Lemma open_brace_not_ident after :
  not_ident_head (String open_brace after).
Proof. reflexivity. Qed.

Lemma match_placeholder_intro name after :
  is_identifier name = true →
  match_placeholder (placeholder name +:+ after) = Some (name, after).
Proof.
  destruct name as [|c run]; simpl; [discriminate|].
  intros [Hc Hrun]%andb_true_iff.
  rewrite placeholder_unfold, append_cons.
  unfold match_placeholder. simpl. rewrite Hc.
  rewrite (span_ident_run run _ Hrun (close_brace_not_ident _)).
  reflexivity.
Qed.

Lemma match_placeholder_elim s name rest :
  match_placeholder s = Some (name, rest) →
  s = placeholder name +:+ rest ∧ is_identifier name = true.
Proof.
  unfold match_placeholder.
  destruct (strip open_brace s) as [s1|] eqn:E1; simpl; [|discriminate].
  destruct (strip open_brace s1) as [s2|] eqn:E2; simpl; [|discriminate].
  destruct s2 as [|c s3]; [discriminate|].
  destruct (is_ident_start c) eqn:Hc; [|discriminate].
  destruct (span_ident s3) as [run after] eqn:Hspan.
  destruct (strip close_brace after) as [a1|] eqn:E3; simpl; [|discriminate].
  destruct (strip close_brace a1) as [r|] eqn:E4; simpl; [|discriminate].
  intros [= <- <-].
  apply strip_spec in E1 as ->. apply strip_spec in E2 as ->.
  apply strip_spec in E3 as ->. apply strip_spec in E4 as ->.
  apply span_ident_spec in Hspan as (-> & Hrun & _).
  split.
  - by rewrite placeholder_unfold, append_cons.
  - simpl. by rewrite Hc, Hrun.
Qed.

(** A placeholder that starts inside [a] ends inside [a]: text that begins
    with two opening braces neither completes nor spoils a match. *)
Lemma match_placeholder_append a tail :
  a ≠ EmptyString →
  match_placeholder (a +:+ String open_brace (String open_brace tail))
  = match match_placeholder a with
    | Some (name, rest) =>
        Some (name, rest +:+ String open_brace (String open_brace tail))
    | None => None
    end.
Proof.
  set (X := String open_brace (String open_brace tail)).
  destruct a as [|c1 a1]; [done|]. intros _.
  rewrite append_cons. unfold match_placeholder. simpl.
  destruct (Ascii.eqb c1 open_brace); simpl; [|done].
  destruct a1 as [|c2 a2]; [by rewrite append_empty_l|].
  rewrite append_cons. simpl.
  destruct (Ascii.eqb c2 open_brace); simpl; [|done].
  destruct a2 as [|c s3]; [by rewrite append_empty_l|].
  rewrite append_cons.
  destruct (is_ident_start c); [|done].
  rewrite (span_ident_append s3 X (open_brace_not_ident _)).
  destruct (span_ident s3) as [run after]. simpl.
  destruct after as [|d1 after1]; [by rewrite append_empty_l|].
  rewrite append_cons. simpl.
  destruct (Ascii.eqb d1 close_brace); simpl; [|done].
  destruct after1 as [|d2 after2]; [by rewrite append_empty_l|].
  rewrite append_cons. simpl.
  by destruct (Ascii.eqb d2 close_brace).
Qed.

Lemma scan_append a tail : ∀ off,
  scan off (a +:+ String open_brace (String open_brace tail))
  = scan off a
    ++ scan (off + String.length a)
         (String open_brace (String open_brace tail)).
Proof.
  set (X := String open_brace (String open_brace tail)).
  remember (String.length a) as n eqn:Hn. revert a Hn.
  induction n as [n IH] using lt_wf_ind. intros a -> off.
  destruct a as [|c a'].
  - rewrite append_empty_l, scan_equation_1. simpl. by rewrite Nat.add_0_r.
  - rewrite append_cons.
    rewrite (scan_step off (String c a')), (scan_step off (String c (a' +:+ X))).
    rewrite <- (append_cons c a' X). subst X.
    rewrite match_placeholder_append by done.
    destruct (match_placeholder (String c a')) as [[name rest]|] eqn:Hm.
    + pose proof (match_placeholder_length _ _ _ Hm) as Hlen.
      rewrite (IH (String.length rest) ltac:(lia) rest eq_refl).
      replace (off + String.length (String c a'))
        with (off + String.length name + 4 + String.length rest) by lia.
      reflexivity.
    + rewrite (IH (String.length a') ltac:(simpl; lia) a' eq_refl).
      replace (off + String.length (String c a'))
        with (S off + String.length a') by (simpl; lia).
      reflexivity.
Qed.

(** The segments of a text around a placeholder. *)
Lemma scan_placeholder off before name after :
  is_identifier name = true →
  scan off (before +:+ placeholder name +:+ after)
  = scan off before
    ++ Hole name (off + String.length before)
    :: scan (off + String.length before + String.length name + 4) after.
Proof.
  intros Hname.
  pose proof (placeholder_unfold name after) as Hp.
  rewrite Hp, scan_append, <- Hp. f_equal.
  rewrite scan_step, (match_placeholder_intro _ _ Hname).
  by rewrite placeholder_unfold.
Qed.

(** Every hole of a scan is a placeholder of the text, at its offset. *)
Lemma scan_hole_inv s : ∀ off name o,
  In (Hole name o) (scan off s) →
  ∃ before after,
    s = before +:+ placeholder name +:+ after
    ∧ o = off + String.length before
    ∧ is_identifier name = true.
Proof.
  remember (String.length s) as n eqn:Hn. revert s Hn.
  induction n as [n IH] using lt_wf_ind. intros s -> off name o.
  rewrite scan_step. destruct s as [|c s']; [done|].
  destruct (match_placeholder (String c s')) as [[name' rest]|] eqn:Hm.
  - pose proof (match_placeholder_length _ _ _ Hm) as Hlen.
    apply match_placeholder_elim in Hm as (Hs & Hid).
    intros [[= <- <-]|Hin].
    + exists EmptyString, rest. rewrite append_empty_l. simpl.
      by rewrite Nat.add_0_r.
    + apply (IH (String.length rest) ltac:(lia) rest eq_refl) in Hin
        as (b & a & -> & -> & Hname).
      exists (placeholder name' +:+ b), a.
      rewrite Hs, !append_assoc. split; [done|]. split; [|done].
      rewrite append_length. unfold placeholder.
      rewrite !append_length. simpl. lia.
  - intros [[=]|Hin].
    apply (IH (String.length s') ltac:(simpl; lia) s' eq_refl) in Hin
      as (b & a & -> & -> & Hname).
    exists (String c b), a. rewrite append_cons. simpl.
    split; [done|]. split; [lia|done].
Qed.

Lemma scan_reoffset k s : ∀ off,
  scan (k + off) s = map (reoffset k) (scan off s).
Proof.
  remember (String.length s) as n eqn:Hn. revert s Hn.
  induction n as [n IH] using lt_wf_ind. intros s -> off.
  rewrite (scan_step (k + off)), (scan_step off).
  destruct s as [|c s']; [done|].
  destruct (match_placeholder (String c s')) as [[name rest]|] eqn:Hm.
  - pose proof (match_placeholder_length _ _ _ Hm) as Hlen. simpl.
    rewrite <- (IH (String.length rest) ltac:(lia) rest eq_refl).
    do 2 f_equal. lia.
  - simpl.
    rewrite <- (IH (String.length s') ltac:(simpl; lia) s' eq_refl).
    do 2 f_equal. lia.
Qed.

(** ** Substitution *)

Section Substitution.

Variable pathVariables : gmap string string.
Variable activeEnv : option Environment.t.

Local Abbreviation subst := (substitute pathVariables activeEnv).
Local Abbreviation rseg := (resolve_segment pathVariables activeEnv).
Local Abbreviation rtext := (resolve_text pathVariables activeEnv).
Local Abbreviation rfrom := (resolve_text_from pathVariables activeEnv).
Local Abbreviation look := (lookup_scopes pathVariables activeEnv).

Lemma substitute_app f l1 l2 :
  subst f (l1 ++ l2)
  = v1 ← subst f l1; v2 ← subst f l2; Resolved (v1 +:+ v2).
Proof.
  induction l1 as [|seg l1 IH]; simpl.
  - by destruct (subst f l2).
  - destruct (rseg f seg) as [v|e]; simpl; [|done].
    rewrite IH. destruct (subst f l1) as [v1|e1]; simpl; [|done].
    destruct (subst f l2) as [v2|e2]; simpl; [|done].
    by rewrite append_assoc.
Qed.

Lemma substitute_failed f l e :
  subst f l = ResolutionFailed e →
  ∃ name o,
    In (Hole name o) l ∧ e = mkResolutionError f name o ∧ look name = None.
Proof.
  induction l as [|seg l IH]; simpl; [discriminate|].
  destruct seg as [c|name o]; simpl.
  - destruct (subst f l) as [v|e'] eqn:Hl; simpl; [discriminate|].
    intros [= <-]. destruct (IH eq_refl) as (name & o & Hin & He & Hl').
    exists name, o. auto.
  - destruct (look name) as [v|] eqn:Hv; simpl.
    + destruct (subst f l) as [v'|e'] eqn:Hl; simpl; [discriminate|].
      intros [= <-]. destruct (IH eq_refl) as (name' & o' & Hin & He & Hl').
      exists name', o'. auto.
    + intros [= <-]. exists name, o. auto.
Qed.

Lemma substitute_reoffset f k l :
  subst f (map (reoffset k) l)
  = match subst f l with
    | Resolved v => Resolved v
    | ResolutionFailed e => ResolutionFailed (move_error k e)
    end.
Proof.
  induction l as [|seg l IH]; simpl; [done|].
  destruct seg as [c|name o]; simpl.
  - rewrite IH. by destruct (subst f l).
  - destruct (look name) as [x|]; simpl; [|done].
    rewrite IH. by destruct (subst f l).
Qed.

(** A text resolves to the same value wherever it sits in its field. *)
Lemma resolve_text_from_resolved f off s v :
  rfrom f off s = Resolved v ↔ rtext f s = Resolved v.
Proof.
  unfold resolve_text, resolve_text_from.
  replace off with (off + 0) by lia.
  rewrite scan_reoffset, substitute_reoffset.
  destruct (subst f (scan 0 s)); split; congruence.
Qed.

(** A failure names a placeholder of the text that no scope binds, with
    its field and its offset. *)
Lemma resolve_text_failed f s e :
  rtext f s = ResolutionFailed e →
  field e = f
  ∧ look (identifier e) = None
  ∧ is_identifier (identifier e) = true
  ∧ ∃ before after,
      s = before +:+ placeholder (identifier e) +:+ after
      ∧ offset e = String.length before.
Proof.
  intros (name & o & Hin & -> & Hl)%substitute_failed.
  apply scan_hole_inv in Hin as (before & after & -> & -> & Hname).
  simpl. eauto 10.
Qed.

(** The resolution of a text around a placeholder: the text before, the
    value of the placeholder, the text after. *)
Lemma resolve_text_placeholder f before name after :
  is_identifier name = true →
  rtext f (before +:+ placeholder name +:+ after)
  = b ← rtext f before;
    v ← rseg f (Hole name (String.length before));
    a ← rfrom f (String.length before + String.length name + 4) after;
    Resolved (b +:+ v +:+ a).
Proof.
  intros Hname.
  unfold resolve_text, resolve_text_from.
  rewrite (scan_placeholder 0 before name after Hname), substitute_app.
  destruct (subst f (scan 0 before)) as [b|e]; simpl; [|done].
  destruct (look name) as [v|]; simpl; [|done].
  by destruct (subst f (scan _ after)).
Qed.

End Substitution.

(** ** Requests *)

Section Requests.

Variable pathVariables : gmap string string.
Variable activeEnv : option Environment.t.

Local Abbreviation rtext := (resolve_text pathVariables activeEnv).
Local Abbreviation rfields := (resolve_fields pathVariables activeEnv).
Local Abbreviation rheaders := (resolve_headers pathVariables activeEnv).

Lemma resolve_fields_headers hs tail :
  rfields (map header_field hs ++ tail)
  = hs' ← rheaders hs; out ← rfields tail;
    Resolved (map header_field hs' ++ out).
Proof.
  induction hs as [|[key text] hs IH]; simpl.
  - by destruct (rfields tail).
  - destruct (rtext (FieldHeader key) text) as [v|e]; simpl; [|done].
    rewrite IH. destruct (rheaders hs) as [hs'|e]; simpl; [|done].
    by destruct (rfields tail).
Qed.

(** [resolve] resolves the templated fields of the request in scan
    order. *)
Lemma resolve_fields_of_request request :
  rfields (templated_fields request)
  = match resolve request pathVariables activeEnv with
    | Resolved r => Resolved (resolved_fields r)
    | ResolutionFailed e => ResolutionFailed e
    end.
Proof.
  unfold resolve, templated_fields, resolved_fields.
  cbn [resolve_fields].
  destruct (rtext FieldUrl (HttpRequest.url request)) as [u|e]; simpl;
    [|done].
  rewrite resolve_fields_headers.
  destruct (rheaders (HttpRequest.headers request)) as [hs|e]; simpl;
    [|done].
  by destruct (rtext FieldBody (HttpRequest.body request)).
Qed.

Lemma resolve_fields_resolved fields out :
  rfields fields = Resolved out →
  ∀ i f text, fields !! i = Some (f, text) →
    ∃ value, out !! i = Some (f, value) ∧ rtext f text = Resolved value.
Proof.
  revert out. induction fields as [|[g t] fields IH]; intros out; simpl.
  - by intros _ i f text.
  - destruct (rtext g t) as [v|e] eqn:Hv; simpl; [|discriminate].
    destruct (rfields fields) as [out'|e] eqn:Hout; simpl; [|discriminate].
    intros [= <-] [|i] f text; simpl.
    + intros [= <- <-]. eauto.
    + by apply IH.
Qed.

(** A failure is the failure of the first field that does not resolve. *)
Lemma resolve_fields_failed fields e :
  rfields fields = ResolutionFailed e →
  ∃ j f text,
    fields !! j = Some (f, text)
    ∧ rtext f text = ResolutionFailed e
    ∧ ∀ k g u, k < j → fields !! k = Some (g, u) →
        ∃ value, rtext g u = Resolved value.
Proof.
  induction fields as [|[g t] fields IH]; simpl; [discriminate|].
  destruct (rtext g t) as [v|e'] eqn:Hv; simpl.
  - destruct (rfields fields) as [out'|e'] eqn:Hout; simpl; [discriminate|].
    intros [= <-]. destruct (IH eq_refl) as (j & f & text & Hj & He & Hlt).
    exists (S j), f, text. split; [done|]. split; [done|].
    intros [|k] g' u Hk; simpl.
    + intros [= <- <-]. eauto.
    + apply Hlt. lia.
  - intros [= <-]. exists 0, g, t. split; [done|]. split; [done|].
    intros k g' u Hk. lia.
Qed.

End Requests.

Lemma lookup_scopes_None pathVariables activeEnv name :
  lookup_scopes pathVariables activeEnv name = None
  ↔ pathVariables !! name = None
    ∧ ∀ env, activeEnv = Some env → Environment.variables env !! name = None.
Proof.
  unfold lookup_scopes. destruct (pathVariables !! name) as [v|].
  - split; [discriminate|]. by intros [[=] _].
  - destruct activeEnv as [env|].
    + split; [|intros [_ H]; by apply H].
      intros H. split; [done|]. by intros ? [= <-].
    + split; [|done]. intros _. split; [done|]. by intros ? [=].
Qed.

(** ** C3: request-level variables shadow the environment *)

(** C3.  When a name is bound both by [pathVariables] (to [v]) and by the
    active environment (to [w]), every placeholder for that name in a
    templated field of the request is replaced by [v]: the resolved field
    is the resolution of the text before the placeholder, then [v], then the
    resolution of the text after it; and the resolution never fails on that
    name. *)
Theorem pathVariables_shadow_environment
    (request : HttpRequest.t) (pathVariables : gmap string string)
    (env : Environment.t) (name v w : string)
    (i : nat) (f : Field) (before after : string) :
  pathVariables !! name = Some v →
  Environment.variables env !! name = Some w →
  is_identifier name = true →
  templated_fields request !! i
  = Some (f, before +:+ placeholder name +:+ after) →
  (∀ e, resolve request pathVariables (Some env) = ResolutionFailed e →
        identifier e ≠ name)
  ∧ (∀ r, resolve request pathVariables (Some env) = Resolved r →
      ∃ before' after',
        resolved_fields r !! i = Some (f, before' +:+ v +:+ after')
        ∧ resolve_text pathVariables (Some env) f before = Resolved before'
        ∧ resolve_text pathVariables (Some env) f after = Resolved after').
Proof.
  intros Hv Hw Hname Hi.
  pose proof (resolve_fields_of_request pathVariables (Some env) request)
    as Hfields.
  split.
  - intros e He. rewrite He in Hfields.
    apply resolve_fields_failed in Hfields as (j & g & text & _ & Hfail & _).
    apply resolve_text_failed in Hfail as (_ & Hnone & _).
    intros Heq. rewrite Heq in Hnone.
    unfold lookup_scopes in Hnone. by rewrite Hv in Hnone.
  - intros r Hr. rewrite Hr in Hfields.
    destruct (resolve_fields_resolved _ _ _ _ Hfields _ _ _ Hi)
      as (value & Hout & Hvalue).
    rewrite (resolve_text_placeholder _ _ _ _ _ _ Hname) in Hvalue.
    destruct (resolve_text pathVariables (Some env) f before) as [b|?];
      simpl in Hvalue; [|discriminate].
    unfold lookup_scopes in Hvalue. rewrite Hv in Hvalue. simpl in Hvalue.
    destruct (resolve_text_from pathVariables (Some env) f _ after)
      as [a|?] eqn:Ha; simpl in Hvalue; [|discriminate].
    injection Hvalue as <-. apply resolve_text_from_resolved in Ha.
    by exists b, a.
Qed.

(** ** C4: a placeholder that no scope binds *)

(** C4 fails as stated: with the URL [{{a}}/{{b}}] and no scope binding
    either name, the request holds the unbound placeholder [b], and the
    error that [resolve] returns names [a]: a [ResolutionError] carries one
    identifier, the first that fails. *)
Lemma later_unresolved_placeholder_is_not_named :
  ¬ (∀ (request : HttpRequest.t) (pathVariables : gmap string string)
       (activeEnv : option Environment.t) (name : string)
       (i : nat) (f : Field) (before after : string),
        is_identifier name = true →
        pathVariables !! name = None →
        (∀ env, activeEnv = Some env →
                Environment.variables env !! name = None) →
        templated_fields request !! i
        = Some (f, before +:+ placeholder name +:+ after) →
        ∃ e, resolve request pathVariables activeEnv = ResolutionFailed e
             ∧ identifier e = name).
Proof.
  intros Hclaim.
  destruct (Hclaim two_placeholders ∅ None "b" 0 FieldUrl "{{a}}/" "")
    as (e & He & Hname).
  - reflexivity.
  - reflexivity.
  - by intros env [=].
  - reflexivity.
  - vm_compute in He. injection He as <-. discriminate.
Qed.

(** C4, amended.  When a templated field of the request holds a placeholder
    whose identifier is bound neither by [pathVariables] nor by the active
    environment, [resolve] returns a [ResolutionError], never a resolved
    request: nothing is substituted and no placeholder is left in place.
    The error names an identifier that no scope binds, with the field and
    the offset of a placeholder for it in the request: the first
    placeholder that fails, in scan order.  It names the given placeholder
    when the fields before it and the text before it resolve, that is, when
    it is the first one that fails. *)
Theorem unresolved_placeholder_fails
    (request : HttpRequest.t) (pathVariables : gmap string string)
    (activeEnv : option Environment.t) (name : string)
    (i : nat) (f : Field) (before after : string) :
  is_identifier name = true →
  pathVariables !! name = None →
  (∀ env, activeEnv = Some env → Environment.variables env !! name = None) →
  templated_fields request !! i
  = Some (f, before +:+ placeholder name +:+ after) →
  ∃ e,
    resolve request pathVariables activeEnv = ResolutionFailed e
    ∧ pathVariables !! identifier e = None
    ∧ (∀ env, activeEnv = Some env →
              Environment.variables env !! identifier e = None)
    ∧ (∃ j before' after',
          templated_fields request !! j
          = Some (field e, before' +:+ placeholder (identifier e) +:+ after')
          ∧ offset e = String.length before')
    ∧ ((∀ k g u, k < i → templated_fields request !! k = Some (g, u) →
            ∃ value, resolve_text pathVariables activeEnv g u = Resolved value) →
       (∃ value, resolve_text pathVariables activeEnv f before = Resolved value) →
       e = mkResolutionError f name (String.length before)).
Proof.
  intros Hname Hpv Henv Hi.
  assert (lookup_scopes pathVariables activeEnv name = None) as Hnone
    by (by apply lookup_scopes_None).
  pose proof (resolve_text_placeholder pathVariables activeEnv f
                before name after Hname) as Htext.
  simpl in Htext. rewrite Hnone in Htext.
  pose proof (resolve_fields_of_request pathVariables activeEnv request)
    as Hfields.
  destruct (resolve request pathVariables activeEnv) as [r|e].
  { destruct (resolve_fields_resolved _ _ _ _ Hfields _ _ _ Hi)
      as (value & _ & Hvalue).
    rewrite Hvalue in Htext.
    by destruct (resolve_text pathVariables activeEnv f before). }
  exists e. split; [done|].
  apply resolve_fields_failed in Hfields
    as (j & g & text & Hj & Hfail & Hfirst).
  destruct (resolve_text_failed _ _ _ _ _ Hfail)
    as (Hfield & Hlook & _ & before' & after' & Htext' & Hoff).
  apply lookup_scopes_None in Hlook as [Hpv' Henv'].
  split; [done|]. split; [done|]. split.
  { exists j, before', after'. by rewrite Hfield, <- Htext'. }
  intros Hbefore_fields [value Hbefore].
  rewrite Hbefore in Htext. simpl in Htext.
  destruct (lt_eq_lt_dec j i) as [[Hlt| ->]|Hgt].
  - destruct (Hbefore_fields _ _ _ Hlt Hj) as [? Hok]. congruence.
  - rewrite Hi in Hj. injection Hj as <- <-. congruence.
  - destruct (Hfirst _ _ _ Hgt Hi) as [? Hok]. congruence.
Qed.

(** ** C5: resolution is a function of its inputs *)

Section SameInputs.

Variables pv1 pv2 : gmap string string.
Variables env1 env2 : option Environment.t.
Hypothesis same_pathVariables : ∀ name, pv1 !! name = pv2 !! name.
Hypothesis same_environment :
  ∀ name, environment_variable env1 name = environment_variable env2 name.

Lemma lookup_scopes_same name :
  lookup_scopes pv1 env1 name = lookup_scopes pv2 env2 name.
Proof.
  unfold lookup_scopes. rewrite same_pathVariables.
  destruct (pv2 !! name); [done|]. apply same_environment.
Qed.

Lemma substitute_same f segs :
  substitute pv1 env1 f segs = substitute pv2 env2 f segs.
Proof.
  induction segs as [|[c|name o] segs IH]; simpl; [done|by rewrite IH|].
  by rewrite lookup_scopes_same, IH.
Qed.

Lemma resolve_text_same f s :
  resolve_text pv1 env1 f s = resolve_text pv2 env2 f s.
Proof. apply substitute_same. Qed.

Lemma resolve_headers_same hs :
  resolve_headers pv1 env1 hs = resolve_headers pv2 env2 hs.
Proof.
  induction hs as [|[key text] hs IH]; simpl; [done|].
  by rewrite resolve_text_same, IH.
Qed.

End SameInputs.

(** C5.  [resolve] is pure: its result, a resolved request or a resolution
    error, is determined by its inputs.  Two calls whose requests carry the
    same method, URL, headers and body, whose [pathVariables] bind the same
    names to the same values and whose active environments bind the same
    variables return the same result; in particular a call repeated on
    unchanged inputs does. *)
Theorem resolve_pure
    (request1 request2 : HttpRequest.t) (pv1 pv2 : gmap string string)
    (env1 env2 : option Environment.t) :
  HttpRequest.method request1 = HttpRequest.method request2 →
  HttpRequest.url request1 = HttpRequest.url request2 →
  HttpRequest.headers request1 = HttpRequest.headers request2 →
  HttpRequest.body request1 = HttpRequest.body request2 →
  (∀ name, pv1 !! name = pv2 !! name) →
  (∀ name, environment_variable env1 name = environment_variable env2 name) →
  resolve request1 pv1 env1 = resolve request2 pv2 env2.
Proof.
  intros Hmethod Hurl Hheaders Hbody Hpv Henv. unfold resolve.
  rewrite Hmethod, Hurl, Hheaders, Hbody.
  rewrite (resolve_text_same pv1 pv2 env1 env2 Hpv Henv FieldUrl).
  rewrite (resolve_headers_same pv1 pv2 env1 env2 Hpv Henv).
  by rewrite (resolve_text_same pv1 pv2 env1 env2 Hpv Henv FieldBody).
Qed.

(** ** The mock request under the mock environments *)

Lemma get_user_profile_is_mock collectionId :
  CollectionFull.requests (getMockCollectionFull collectionId) !! 0
  = Some (get_user_profile collectionId).
Proof. reflexivity. Qed.

Lemma development_is_mock : getMockEnvironments !! 0 = Some development.
Proof. reflexivity. Qed.

(** The URL of the mock request names [userId], which its own
    [pathVariables] bind to 123 and the development environment to 1: the
    resolved URL ends in 123. *)
Lemma pathVariables_shadow_environment_witness :
  ∃ r,
    resolve_own (get_user_profile "1") (Some development) = Resolved r
    ∧ ResolvedRequest.url r = "https://api.example.com/users/123".
Proof.
  change (resolve_own (get_user_profile "1") (Some development))
    with (resolve (get_user_profile "1") {[ "userId" := "123" ]}
            (Some development)).
  destruct (resolve (get_user_profile "1") {[ "userId" := "123" ]}
              (Some development)) as [r|e] eqn:Hr;
    [|vm_compute in Hr; discriminate].
  destruct (pathVariables_shadow_environment (get_user_profile "1")
              {[ "userId" := "123" ]} development "userId" "123" "1"
              0 FieldUrl "https://api.example.com/users/" "")
    as [_ Hsubstituted]; [reflexivity..|].
  destruct (Hsubstituted r Hr) as (before' & after' & Hfield & Hbefore & Hafter).
  exists r. split; [reflexivity|].
  vm_compute in Hbefore, Hafter.
  injection Hbefore as <-. injection Hafter as <-.
  simpl in Hfield. by injection Hfield as ->.
Defined.

(** Under an environment that binds no token, the Authorization header of
    the mock request fails the resolution, at offset 7 of that header. *)
Lemma unresolved_placeholder_fails_witness :
  resolve (get_user_profile "1") {[ "userId" := "123" ]} (Some staging)
  = ResolutionFailed (mkResolutionError (FieldHeader "Authorization") "token" 7).
Proof.
  destruct (unresolved_placeholder_fails (get_user_profile "1")
              {[ "userId" := "123" ]} (Some staging) "token"
              1 (FieldHeader "Authorization") "Bearer " "")
    as (e & He & _ & _ & _ & Hfirst).
  - reflexivity.
  - reflexivity.
  - intros env [= <-]. reflexivity.
  - reflexivity.
  - rewrite He. f_equal. apply Hfirst.
    + intros [|k] g u Hk; [|lia]. intros [= <- <-]. by eexists.
    + by eexists.
Defined.

(** The mock request resolves alike under the development environment and
    under a copy of it with another name and identifier. *)
Lemma resolve_pure_witness :
  resolve (get_user_profile "1") {[ "userId" := "123" ]} (Some development)
  = resolve (get_user_profile "2") {[ "userId" := "123" ]}
      (Some {| Environment._id := "9";
               Environment.name := "Copy of Development";
               Environment.variables := Environment.variables development;
               Environment.isActive := false;
               Environment.createdAt := "2024-03-01T00:00:00Z";
               Environment.updatedAt := None |}).
Proof.
  apply resolve_pure; reflexivity.
Defined.


(** ** The scenarios of the specification, evaluated *)

(** The mock request under its own [pathVariables] and the development
    environment. *)
Example resolve_get_user_profile :
  resolve_own (get_user_profile "1") (Some development)
  = Resolved
      {| ResolvedRequest.method := "GET";
         ResolvedRequest.url := "https://api.example.com/users/123";
         ResolvedRequest.headers :=
           [ ("Authorization", "Bearer dev-token-123");
             ("Content-Type", "application/json") ];
         ResolvedRequest.body := "" |}.
Proof. by vm_compute. Qed.

(** No active environment and no [pathVariables] entry for the name. *)
Example resolve_without_scope :
  resolve_text ∅ None FieldUrl "{{baseUrl}}/users"
  = ResolutionFailed (mkResolutionError FieldUrl "baseUrl" 0).
Proof. by vm_compute. Qed.

(** A variable bound to the empty string is not a missing variable. *)
Example resolve_empty_value :
  resolve_text {[ "suffix" := "" ]} None FieldUrl "/users{{suffix}}"
  = Resolved "/users".
Proof. by vm_compute. Qed.

(** One pass: a substituted value is not expanded again. *)
Example resolve_one_pass :
  resolve_text {[ "a" := "{{b}}" ]} (Some development) FieldBody "{{a}}"
  = Resolved "{{b}}".
Proof. by vm_compute. Qed.

(** Double braces that do not match the grammar are left untouched. *)
Example resolve_leaves_other_braces :
  resolve_text ∅ None FieldBody "{{ userId }} {{1x}} {{}} {{x}"
  = Resolved "{{ userId }} {{1x}} {{}} {{x}".
Proof. by vm_compute. Qed.

(** * Further properties of the API service *)

(** ** The outcome of a fetch *)

Lemma fetch_json_returns {A} (net : Fetch A) v :
  fetch_returns net v → fetch_json net = Fulfilled v.
Proof.
  intros (response & -> & Hok & Hjson).
  unfold fetch_json. simpl. by rewrite Hok.
Qed.

Lemma fetch_json_fails {A} (net : Fetch A) e :
  fetch_fails_with net e → fetch_json net = Rejected e.
Proof.
  unfold fetch_json.
  intros [e'|response Hok|response e' Hok Hjson]; simpl; [done|..].
  - by rewrite Hok.
  - by rewrite Hok.
Qed.

Lemma fetch_failed_fails_with {A} (net : Fetch A) :
  fetch_failed net ↔ ∃ e, fetch_fails_with net e.
Proof.
  split.
  - intros [e|response Hok|response e Hjson].
    + exists e. constructor.
    + eexists. by constructor.
    + destruct (ok response) eqn:Hok.
      * exists e. by constructor.
      * eexists. by constructor.
  - intros [e [e'|response Hok|response e' Hok Hjson]].
    + constructor.
    + by constructor.
    + by eapply fetch_bad_json.
Qed.

(** A fetch either returns a body or fails with an error, never both. *)
Lemma fetch_returns_or_fails {A} (net : Fetch A) :
  (∃ v, fetch_returns net v) ∨ (∃ e, fetch_fails_with net e).
Proof.
  destruct net as [response|e]; [|right; exists e; constructor].
  destruct (ok response) eqn:Hok; [|right; eexists; by constructor].
  destruct (json response) as [v|e] eqn:Hjson.
  - left. exists v, response. auto.
  - right. exists e. by constructor.
Qed.

Lemma rethrow_is_body {A} (body : Promise A) :
  try_catch body (fun error => throw error) = body.
Proof. by destruct body. Qed.

(** ** Updates against the backend *)

(** X1.  In backend mode the three update methods do not fall back to mock
    data: they are fulfilled with the parsed body when the fetch succeeds,
    and reject with the error of the fetch when it fails (the reason of the
    rejected call, "HTTP error! status: " followed by the status, or the
    reason the body does not parse). *)
Theorem update_backend_outcome (this : ApiService) :
  useMockData this = false →
  (∀ net collectionId updates,
      (∀ v, fetch_returns net v →
            updateCollection this net collectionId updates = Fulfilled v)
      ∧ (∀ e, fetch_fails_with net e →
              updateCollection this net collectionId updates = Rejected e))
  ∧ (∀ net environmentId updates,
      (∀ v, fetch_returns net v →
            updateEnvironment this net environmentId updates = Fulfilled v)
      ∧ (∀ e, fetch_fails_with net e →
              updateEnvironment this net environmentId updates = Rejected e))
  ∧ (∀ clock net collectionId requestId updates,
      (∀ v, fetch_returns net v →
            updateRequest this clock net collectionId requestId updates
            = Fulfilled v)
      ∧ (∀ e, fetch_fails_with net e →
              updateRequest this clock net collectionId requestId updates
              = Rejected e)).
Proof.
  unfold updateCollection, updateEnvironment, updateRequest. intros ->.
  repeat split; intros ? H; rewrite rethrow_is_body;
    by (apply fetch_json_returns || apply fetch_json_fails).
Qed.

Lemma update_backend_outcome_witness :
  updateCollection backendService (respond 404 (Rejected (mkError "")))
    "2" (rename_to "Shop API")
  = Rejected (mkError "HTTP error! status: 404").
Proof.
  destruct (update_backend_outcome backendService eq_refl) as (Hupdate & _).
  apply Hupdate. by apply fails_not_ok.
Defined.

(** ** Deletions *)

Lemma delete_body_outcome (net : Fetch unit) :
  (∀ response, net = Fulfilled response → ok response = true →
     try_catch
       (response ← net;
        if negb (ok response) then throw (http_error response) else mret tt)
       (fun error => throw error) = Fulfilled tt)
  ∧ (∀ e, delete_fails_with net e →
     try_catch
       (response ← net;
        if negb (ok response) then throw (http_error response) else mret tt)
       (fun error => throw error) = Rejected e).
Proof.
  rewrite rethrow_is_body. split.
  - intros response -> Hok. simpl. by rewrite Hok.
  - intros e [e'|response Hok]; simpl; [done|]. by rewrite Hok.
Qed.

(** X2.  The three delete methods are fulfilled in mock mode, whatever the
    identifiers are, and in backend mode as soon as the response is ok,
    whatever its body is (the body is never read).  In backend mode they
    reject otherwise, with the reason of the rejected call or with "HTTP
    error! status: " followed by the status; nothing falls back to mock
    behaviour. *)
Theorem delete_outcome (this : ApiService) (net : Fetch unit) :
  (useMockData this = true
   ∨ (∃ response, net = Fulfilled response ∧ ok response = true) →
     (∀ collectionId, deleteCollection this net collectionId = Fulfilled tt)
     ∧ (∀ collectionId requestId,
          deleteRequest this net collectionId requestId = Fulfilled tt)
     ∧ (∀ environmentId,
          deleteEnvironment this net environmentId = Fulfilled tt))
  ∧ (useMockData this = false →
     ∀ e, delete_fails_with net e →
       (∀ collectionId, deleteCollection this net collectionId = Rejected e)
       ∧ (∀ collectionId requestId,
            deleteRequest this net collectionId requestId = Rejected e)
       ∧ (∀ environmentId,
            deleteEnvironment this net environmentId = Rejected e)).
Proof.
  unfold deleteCollection, deleteRequest, deleteEnvironment.
  destruct (delete_body_outcome net) as [Hok Hfail].
  split.
  - destruct (useMockData this); [done|].
    intros [[=]|(response & Hnet & Hresponse)].
    pose proof (Hok response Hnet Hresponse). auto.
  - intros -> e He. pose proof (Hfail e He). auto.
Qed.

(** A response 204 whose empty body does not parse still deletes. *)
Example delete_ignores_body :
  deleteEnvironment backendService
    (respond 204 (Rejected (mkError "Unexpected end of JSON input"))) "2"
  = Fulfilled tt.
Proof. reflexivity. Qed.

(** ** Queries and creations: fallback and backend answer *)

(** A method of the shape [if (mock) return m; try { fetch } catch { return m }]
    always fulfils: with [m] in mock mode and whenever the fetch fails, with
    the parsed body when the backend answers. *)
Lemma fallback_outcome {A} (mock : bool) (net : Fetch A) (m : A) :
  ∃ v, (if mock then mret m
        else try_catch (fetch_json net) (fun _ => mret m)) = Fulfilled v
       ∧ (mock = true ∨ fetch_failed net → v = m)
       ∧ (mock = false → ∀ w, fetch_returns net w → v = w).
Proof.
  destruct (fallback_fulfilled mock net m) as (v & Hv & Hm).
  exists v. split; [done|]. split; [done|].
  intros -> w Hw. rewrite (fetch_json_returns net w Hw) in Hv.
  simpl in Hv. congruence.
Qed.

(** X3.  In backend mode, when the fetch succeeds, the four queries are
    fulfilled with the parsed body as it is.  In particular
    [searchCollections] does not filter the answer of the backend by the
    query. *)
Theorem queries_backend_payload (this : ApiService) :
  useMockData this = false →
  (∀ net v, fetch_returns net v → getCollections this net = Fulfilled v)
  ∧ (∀ net collectionId v,
        fetch_returns net v →
        getCollectionById this net collectionId = Fulfilled v)
  ∧ (∀ net query v,
        fetch_returns net v → searchCollections this net query = Fulfilled v)
  ∧ (∀ net v, fetch_returns net v → getEnvironments this net = Fulfilled v).
Proof.
  unfold getCollections, getCollectionById, searchCollections, getEnvironments.
  intros ->.
  repeat split; intros; by erewrite fetch_json_returns.
Qed.

Lemma queries_backend_payload_witness :
  searchCollections backendService
    (respond 200 (Fulfilled [user_management])) "payment"
  = Fulfilled [user_management].
Proof.
  destruct (queries_backend_payload backendService eq_refl)
    as (_ & _ & Hsearch & _).
  apply Hsearch. by eexists.
Defined.

(** X4.  [searchCollections] never rejects, and when the fetch fails in backend
    mode it answers as in mock mode: with the mock collections whose name or
    description contains the query up to case, in their order. *)
Theorem searchCollections_fallback (this : ApiService)
    (net : Fetch (list Collection.t)) (query : string) :
  ∃ found,
    searchCollections this net query = Fulfilled found
    ∧ (useMockData this = true ∨ fetch_failed net →
       (∀ c, In c found ↔
             In c getMockCollections
             ∧ (contains_ignoring_case (Collection.name c) query
                ∨ contains_ignoring_case (Collection.description c) query))
       ∧ sublist found getMockCollections).
Proof.
  unfold searchCollections.
  destruct (fallback_outcome (useMockData this) net
              (List.filter (matches_query query) getMockCollections))
    as (found & Hfound & Hmock & _).
  exists found. split; [exact Hfound|].
  intros H. rewrite (Hmock H). split.
  - intros c. by rewrite filter_In, matches_query_spec.
  - apply filter_sublist.
Qed.

(** X5.  The three create methods never reject.  In mock mode and whenever the
    fetch fails they are fulfilled with the argument completed by the clock:
    [_id] is the [_id] that the argument carries, or the decimal form of
    [Date.now()] when it carries none (the key is written before the
    spread); [createdAt], the [updatedAt] of a request and the size 0 of a
    collection are written after the spread and never come from the
    argument; the [updatedAt] of an environment is the one the argument
    carries, if any.  In backend mode, when the fetch succeeds, they are
    fulfilled with the parsed body. *)
Theorem creates_never_reject (this : ApiService) (clock clock' : Clock) :
  (∀ net collection,
      ∃ c, createCollection this clock net collection = Fulfilled c
        ∧ (useMockData this = true ∨ fetch_failed net →
           field_after (toString (Date_now clock))
                       (NewCollection._id collection) (Collection._id c)
           ∧ Collection.name c = NewCollection.name collection
           ∧ Collection.description c = NewCollection.description collection
           ∧ Collection.size c = 0%Z
           ∧ Collection.createdAt c = toISOString clock)
        ∧ (useMockData this = false → ∀ v, fetch_returns net v → c = v))
  ∧ (∀ net environment,
      ∃ e, createEnvironment this clock net environment = Fulfilled e
        ∧ (useMockData this = true ∨ fetch_failed net →
           field_after (toString (Date_now clock))
                       (NewEnvironment._id environment) (Environment._id e)
           ∧ Environment.name e = NewEnvironment.name environment
           ∧ Environment.variables e = NewEnvironment.variables environment
           ∧ Environment.isActive e = NewEnvironment.isActive environment
           ∧ Environment.createdAt e = toISOString clock
           ∧ Environment.updatedAt e = NewEnvironment.updatedAt environment)
        ∧ (useMockData this = false → ∀ v, fetch_returns net v → e = v))
  ∧ (∀ net collectionId request,
      ∃ r, createRequest this clock clock' net collectionId request
           = Fulfilled r
        ∧ (useMockData this = true ∨ fetch_failed net →
           field_after (toString (Date_now clock))
                       (NewHttpRequest._id request) (HttpRequest._id r)
           ∧ HttpRequest.collectionId r = NewHttpRequest.collectionId request
           ∧ HttpRequest.name r = NewHttpRequest.name request
           ∧ HttpRequest.method r = NewHttpRequest.method request
           ∧ HttpRequest.url r = NewHttpRequest.url request
           ∧ HttpRequest.headers r = NewHttpRequest.headers request
           ∧ HttpRequest.body r = NewHttpRequest.body request
           ∧ HttpRequest.bodyType r = NewHttpRequest.bodyType request
           ∧ HttpRequest.preScript r = NewHttpRequest.preScript request
           ∧ HttpRequest.postScript r = NewHttpRequest.postScript request
           ∧ HttpRequest.tests r = NewHttpRequest.tests request
           ∧ HttpRequest.pathVariables r
             = NewHttpRequest.pathVariables request
           ∧ HttpRequest.createdAt r = toISOString clock
           ∧ HttpRequest.updatedAt r = toISOString clock')
        ∧ (useMockData this = false → ∀ v, fetch_returns net v → r = v)).
Proof.
  unfold createCollection, createEnvironment, createRequest.
  split; [|split].
  - intros net collection.
    destruct (fallback_outcome (useMockData this) net
                (created_collection clock collection))
      as (c & Hc & Hmock & Hback).
    exists c. split; [exact Hc|]. split; [|exact Hback].
    intros H. rewrite (Hmock H). unfold field_after. simpl.
    by destruct (NewCollection._id collection).
  - intros net environment.
    destruct (fallback_outcome (useMockData this) net
                (created_environment clock environment))
      as (e & He & Hmock & Hback).
    exists e. split; [exact He|]. split; [|exact Hback].
    intros H. rewrite (Hmock H). unfold field_after. simpl.
    by destruct (NewEnvironment._id environment).
  - intros net collectionId request.
    destruct (fallback_outcome (useMockData this) net
                (created_request clock clock' request))
      as (r & Hr & Hmock & Hback).
    exists r. split; [exact Hr|]. split; [|exact Hback].
    intros H. rewrite (Hmock H). unfold field_after. simpl.
    split; [by destruct (NewHttpRequest._id request)|]. repeat split.
Qed.

(** ** The detail of a collection *)

Lemma append_not_self s suffix :
  suffix ≠ EmptyString → s +:+ suffix ≠ s.
Proof.
  intros Hsuffix Heq. apply (f_equal String.length) in Heq.
  rewrite append_length in Heq.
  destruct suffix; [done|]. simpl in Heq. lia.
Qed.

Lemma req_ids_differ collectionId :
  collectionId +:+ "_req_1" ≠ collectionId +:+ "_req_2".
Proof. intros H. by apply (inj (String.app collectionId)) in H. Qed.

(** X6.  [getCollectionById] never rejects and never reports an unknown
    collection.  In mock mode and whenever the fetch fails it is fulfilled,
    for every identifier, with a collection that carries this identifier
    and two requests, [<id>_req_1] and [<id>_req_2]; the [collectionId] of
    each request is the identifier of the request itself, not the
    identifier of the collection. *)
Theorem getCollectionById_fallback (this : ApiService)
    (net : Fetch CollectionFull.t) (collectionId : string) :
  ∃ full,
    getCollectionById this net collectionId = Fulfilled full
    ∧ (useMockData this = true ∨ fetch_failed net →
       CollectionFull._id full = collectionId
       ∧ map HttpRequest._id (CollectionFull.requests full)
         = [collectionId +:+ "_req_1"; collectionId +:+ "_req_2"]
       ∧ NoDup (map HttpRequest._id (CollectionFull.requests full))
       ∧ ∀ r, In r (CollectionFull.requests full) →
              HttpRequest.collectionId r = HttpRequest._id r
              ∧ HttpRequest.collectionId r ≠ collectionId).
Proof.
  unfold getCollectionById.
  destruct (fallback_outcome (useMockData this) net
              (getMockCollectionFull collectionId))
    as (full & Hfull & Hmock & _).
  exists full. split; [exact Hfull|]. intros H. rewrite (Hmock H).
  split; [done|]. split; [done|]. split.
  - simpl. constructor.
    + rewrite list_elem_of_singleton. apply req_ids_differ.
    + constructor; [|constructor]. apply not_elem_of_nil.
  - simpl. intros r [<-|[<-|[]]]; simpl; (split; [done|]);
      by apply append_not_self.
Qed.

(** ** Updates in mock mode *)

Lemma find_environment_by_id (env : Environment.t) :
  In env getMockEnvironments →
  find (fun e => String.eqb (Environment._id e) (Environment._id env))
       getMockEnvironments = Some env.
Proof.
  simpl. intros [<-|[<-|[]]]; reflexivity.
Qed.

(** X7.  In mock mode [updateEnvironment environmentId updates] rejects exactly
    when no listed environment has [_id = environmentId], and then the
    error message is "Environment not found"; otherwise it is fulfilled
    with that environment in which every field named in [updates] has the
    value [updates] gives and every other field is unchanged. *)
Theorem updateEnvironment_mock_spec (this : ApiService)
    (net : Fetch Environment.t) (net' : Fetch (list Environment.t))
    (environmentId : string) (updates : PartialEnvironment.t)
    (known : list Environment.t) :
  useMockData this = true →
  getEnvironments this net' = Fulfilled known →
  ((∃ e, updateEnvironment this net environmentId updates = Rejected e)
   ↔ ¬ ∃ env, In env known ∧ Environment._id env = environmentId)
  ∧ (∀ e, updateEnvironment this net environmentId updates = Rejected e →
          message e = "Environment not found")
  ∧ (∀ env, In env known → Environment._id env = environmentId →
      ∃ r, updateEnvironment this net environmentId updates = Fulfilled r
        ∧ field_after (Environment._id env) (PartialEnvironment._id updates)
                      (Environment._id r)
        ∧ field_after (Environment.name env) (PartialEnvironment.name updates)
                      (Environment.name r)
        ∧ field_after (Environment.variables env)
                      (PartialEnvironment.variables updates)
                      (Environment.variables r)
        ∧ field_after (Environment.isActive env)
                      (PartialEnvironment.isActive updates)
                      (Environment.isActive r)
        ∧ field_after (Environment.createdAt env)
                      (PartialEnvironment.createdAt updates)
                      (Environment.createdAt r)
        ∧ field_after (Environment.updatedAt env)
                      (Some <$> PartialEnvironment.updatedAt updates)
                      (Environment.updatedAt r)).
Proof.
  unfold updateEnvironment, getEnvironments. intros -> [= <-].
  split; [|split].
  - destruct (find _ getMockEnvironments) as [env|] eqn:Hfind.
    + apply find_Some in Hfind as [Hin Hid]. apply String.eqb_eq in Hid.
      split; [by intros [e [=]]|]. intros Hno. destruct Hno. eauto.
    + split; [|by eexists]. intros _ (env & Hin & Hid).
      pose proof (find_None _ _ Hfind env Hin) as Hne. simpl in Hne.
      apply String.eqb_neq in Hne. done.
  - destruct (find _ getMockEnvironments); [discriminate|].
    by intros e [= <-].
  - intros env Hin <-. rewrite (find_environment_by_id env Hin).
    eexists. split; [reflexivity|].
    unfold field_after, spread_Environment. simpl.
    destruct updates as [[?|] [?|] [?|] [?|] [?|] [?|]]; simpl; done.
Qed.

Lemma updateEnvironment_mock_spec_witness :
  ∃ r,
    updateEnvironment apiService offline "2" activate = Fulfilled r
    ∧ Environment.isActive r = true
    ∧ Environment.name r = "Production".
Proof.
  destruct (updateEnvironment_mock_spec apiService offline offline "2"
              activate getMockEnvironments eq_refl eq_refl)
    as (_ & _ & Hframe).
  destruct (Hframe production) as (r & Hr & _ & Hname & _ & Hactive & _).
  - simpl. auto.
  - reflexivity.
  - exists r. simpl in Hname, Hactive. auto.
Defined.

Lemma find_unique {A} (key : A → string) (l : list A) (x : A) :
  NoDup (map key l) → In x l →
  find (fun y => String.eqb (key y) (key x)) l = Some x.
Proof.
  induction l as [|y l IH]; simpl; [done|].
  intros [Hy Hl]%NoDup_cons [->|Hx].
  - by rewrite String.eqb_refl.
  - destruct (String.eqb_spec (key y) (key x)) as [Heq|_]; [|by apply IH].
    destruct Hy. rewrite Heq. apply list_elem_of_In, in_map, Hx.
Qed.

Lemma mock_request_ids_NoDup collectionId :
  NoDup (map HttpRequest._id
             (CollectionFull.requests (getMockCollectionFull collectionId))).
Proof.
  simpl. constructor.
  - rewrite list_elem_of_singleton. apply req_ids_differ.
  - constructor; [|constructor]. apply not_elem_of_nil.
Qed.

(** X8.  In mock mode [updateRequest collectionId requestId updates] rejects
    exactly when [getCollectionById collectionId] lists no request with
    [_id = requestId], and then the error message is "Request not found";
    otherwise it is fulfilled with that request in which every field named
    in [updates] has the value [updates] gives and every other field is
    unchanged, except [updatedAt], which is always the current date, also
    when [updates] names it. *)
Theorem updateRequest_mock_spec (this : ApiService) (clock : Clock)
    (net : Fetch HttpRequest.t) (net' : Fetch CollectionFull.t)
    (collectionId requestId : string) (updates : PartialHttpRequest.t)
    (full : CollectionFull.t) :
  useMockData this = true →
  getCollectionById this net' collectionId = Fulfilled full →
  ((∃ e, updateRequest this clock net collectionId requestId updates
         = Rejected e)
   ↔ ¬ ∃ request, In request (CollectionFull.requests full)
                  ∧ HttpRequest._id request = requestId)
  ∧ (∀ e, updateRequest this clock net collectionId requestId updates
          = Rejected e →
          message e = "Request not found")
  ∧ (∀ request,
      In request (CollectionFull.requests full) →
      HttpRequest._id request = requestId →
      ∃ r, updateRequest this clock net collectionId requestId updates
           = Fulfilled r
        ∧ field_after (HttpRequest._id request)
            (PartialHttpRequest._id updates) (HttpRequest._id r)
        ∧ field_after (HttpRequest.collectionId request)
            (PartialHttpRequest.collectionId updates)
            (HttpRequest.collectionId r)
        ∧ field_after (HttpRequest.name request)
            (PartialHttpRequest.name updates) (HttpRequest.name r)
        ∧ field_after (HttpRequest.method request)
            (PartialHttpRequest.method updates) (HttpRequest.method r)
        ∧ field_after (HttpRequest.url request)
            (PartialHttpRequest.url updates) (HttpRequest.url r)
        ∧ field_after (HttpRequest.headers request)
            (PartialHttpRequest.headers updates) (HttpRequest.headers r)
        ∧ field_after (HttpRequest.body request)
            (PartialHttpRequest.body updates) (HttpRequest.body r)
        ∧ field_after (HttpRequest.bodyType request)
            (PartialHttpRequest.bodyType updates) (HttpRequest.bodyType r)
        ∧ field_after (HttpRequest.preScript request)
            (PartialHttpRequest.preScript updates) (HttpRequest.preScript r)
        ∧ field_after (HttpRequest.postScript request)
            (PartialHttpRequest.postScript updates) (HttpRequest.postScript r)
        ∧ field_after (HttpRequest.tests request)
            (PartialHttpRequest.tests updates) (HttpRequest.tests r)
        ∧ field_after (HttpRequest.pathVariables request)
            (Some <$> PartialHttpRequest.pathVariables updates)
            (HttpRequest.pathVariables r)
        ∧ field_after (HttpRequest.createdAt request)
            (PartialHttpRequest.createdAt updates) (HttpRequest.createdAt r)
        ∧ HttpRequest.updatedAt r = toISOString clock).
Proof.
  unfold updateRequest, getCollectionById. intros -> [= <-].
  split; [|split].
  - destruct (find _ _) as [request|] eqn:Hfind.
    + apply find_Some in Hfind as [Hin Hid]. apply String.eqb_eq in Hid.
      split; [by intros [e [=]]|]. intros Hno. destruct Hno. eauto.
    + split; [|by eexists]. intros _ (request & Hin & Hid).
      pose proof (find_None _ _ Hfind request Hin) as Hne. simpl in Hne.
      apply String.eqb_neq in Hne. done.
  - destruct (find _ _); [discriminate|]. by intros e [= <-].
  - intros request Hin <-.
    rewrite (find_unique HttpRequest._id _ request
               (mock_request_ids_NoDup collectionId) Hin).
    eexists. split; [reflexivity|].
    unfold field_after, spread_HttpRequest. simpl.
    repeat split;
      match goal with
      | |- context [PartialHttpRequest.pathVariables updates] =>
          by destruct (PartialHttpRequest.pathVariables updates)
      | |- match ?named with _ => _ end => by destruct named
      end.
Qed.

Lemma updateRequest_mock_spec_witness :
  ∃ r,
    updateRequest apiService instant offline "1" "1_req_1" no_request_updates
    = Fulfilled r
    ∧ HttpRequest.name r = "Get User Profile"
    ∧ HttpRequest.updatedAt r = "2023-11-14T22:13:20.000Z".
Proof.
  destruct (updateRequest_mock_spec apiService instant offline offline
              "1" "1_req_1" no_request_updates (getMockCollectionFull "1")
              eq_refl eq_refl) as (_ & _ & Hframe).
  destruct (Hframe (get_user_profile "1"))
    as (r & Hr & _ & _ & Hname & Hrest).
  - simpl. auto.
  - reflexivity.
  - exists r. simpl in Hname. split; [done|]. split; [done|].
    apply Hrest.
Defined.

(** ** Search: the query *)

Lemma toLowerCase_unit_idempotent c :
  toLowerCase_unit (toLowerCase_unit c) = toLowerCase_unit c.
Proof. by destruct c as [[] [] [] [] [] [] [] []]. Qed.

Lemma toLowerCase_idempotent s : toLowerCase (toLowerCase s) = toLowerCase s.
Proof.
  induction s as [|c s IH]; simpl; [done|].
  by rewrite toLowerCase_unit_idempotent, IH.
Qed.

Lemma filter_ext_sublist {A} (p q : A → bool) (l : list A) :
  (∀ x, p x = true → q x = true) →
  sublist (List.filter p l) (List.filter q l).
Proof.
  intros Hpq. induction l as [|x l IH]; simpl; [constructor|].
  destruct (p x) eqn:Hp.
  - rewrite (Hpq x Hp). by constructor.
  - destruct (q x); [by constructor|done].
Qed.

Lemma contains_ignoring_case_narrow text query before after :
  contains_ignoring_case text (before +:+ query +:+ after) →
  contains_ignoring_case text query.
Proof.
  rewrite <- !includes_toLowerCase, !includes_spec.
  intros (x & y & ->). rewrite !toLowerCase_append.
  exists (x +:+ toLowerCase before), (toLowerCase after +:+ y).
  by rewrite !append_assoc.
Qed.

(** X9.  In mock mode a longer query never finds more: when [query] occurs in
    [query'], every collection found for [query'] is found for [query], in
    the same order. *)
Theorem searchCollections_narrows (this : ApiService)
    (net net' : Fetch (list Collection.t)) (query before after : string) :
  useMockData this = true →
  ∃ found found',
    searchCollections this net query = Fulfilled found
    ∧ searchCollections this net' (before +:+ query +:+ after)
      = Fulfilled found'
    ∧ sublist found' found.
Proof.
  unfold searchCollections. intros ->.
  eexists _, _. split; [reflexivity|]. split; [reflexivity|].
  apply filter_ext_sublist. intros c.
  rewrite !matches_query_spec.
  intros [H|H]; [left|right]; by eapply contains_ignoring_case_narrow.
Qed.

Lemma searchCollections_narrows_witness :
  ∃ found found',
    searchCollections apiService offline "api" = Fulfilled found
    ∧ searchCollections apiService offline "User Management API"
      = Fulfilled found'
    ∧ sublist found' found.
Proof.
  apply (searchCollections_narrows apiService offline offline
           "api" "User Management " "").
  reflexivity.
Defined.

(** X10.  In mock mode the case of the letters of the query does not matter:
    two queries that are equal up to case find the same collections, and so
    do a query and its lower-case form. *)
Theorem searchCollections_ignores_query_case (this : ApiService)
    (net net' : Fetch (list Collection.t)) (query query' : string) :
  useMockData this = true →
  (equal_ignoring_case query query' →
   searchCollections this net query = searchCollections this net' query')
  ∧ searchCollections this net (toLowerCase query)
    = searchCollections this net' query.
Proof.
  unfold searchCollections, equal_ignoring_case. intros ->. split.
  - intros Hcase. unfold matches_query. by rewrite Hcase.
  - unfold matches_query. by rewrite toLowerCase_idempotent.
Qed.

Lemma searchCollections_ignores_query_case_witness :
  searchCollections apiService offline "PAYMENT"
  = searchCollections apiService offline "Payment".
Proof.
  destruct (searchCollections_ignores_query_case apiService offline offline
              "PAYMENT" "Payment" eq_refl) as [Hcase _].
  apply Hcase. reflexivity.
Defined.

(** ** What is created is not stored *)

(** An argument that carries [_id] keeps it: the key is written before the
    spread. *)
Example createCollection_keeps_carried_id :
  createCollection apiService instant offline copy_of_user_management
  = Fulfilled
      {| Collection._id := "1";
         Collection.name := "User Management API";
         Collection.description := "";
         Collection.size := 0;
         Collection.createdAt := "2023-11-14T22:13:20.000Z" |}.
Proof. reflexivity. Qed.

Lemma toString_parses z :
  NilZero.int_of_string (toString z) = Some (Z.to_int z).
Proof.
  unfold toString. apply NilZero.isi; destruct z; simpl; try discriminate;
    intros [= H]; by apply DecimalPos.Unsigned.to_uint_nonnil in H.
Qed.

Lemma toString_inj a b : toString a = toString b → a = b.
Proof.
  intros H. apply DecimalZ.to_int_inj.
  pose proof (toString_parses a) as Ha. rewrite H, toString_parses in Ha.
  congruence.
Qed.

Lemma uint_of_string_append_None s t :
  NilEmpty.uint_of_string t = None →
  NilEmpty.uint_of_string (s +:+ t) = None.
Proof.
  intros Ht. induction s as [|a s IH]; [done|].
  rewrite append_cons. simpl. by rewrite IH.
Qed.

(** The decimal form of a number never ends in text that is not a
    number. *)
Lemma toString_not_suffixed z s t :
  s ≠ EmptyString → NilEmpty.uint_of_string t = None →
  toString z ≠ s +:+ t.
Proof.
  intros Hs Ht Heq. pose proof (toString_parses z) as Hz. rewrite Heq in Hz.
  assert (∀ u, NilZero.uint_of_string (u +:+ t) = None) as Hnone.
  { intros u. pose proof (uint_of_string_append_None u t Ht) as Hu.
    unfold NilZero.uint_of_string. by destruct (u +:+ t). }
  destruct s as [|a s]; [done|].
  rewrite append_cons in Hz. unfold NilZero.int_of_string in Hz.
  destruct (Ascii.eqb a "-").
  - by rewrite Hnone in Hz.
  - rewrite <- append_cons in Hz. by rewrite Hnone in Hz.
Qed.

Lemma toString_not_request_id z collectionId :
  toString z ≠ collectionId +:+ "_req_1"
  ∧ toString z ≠ collectionId +:+ "_req_2".
Proof.
  split.
  - change "_req_1" with ("_" +:+ "req_1"). rewrite <- append_assoc.
    apply toString_not_suffixed; [|done].
    destruct collectionId; by rewrite ?append_cons.
  - change "_req_2" with ("_" +:+ "req_2"). rewrite <- append_assoc.
    apply toString_not_suffixed; [|done].
    destruct collectionId; by rewrite ?append_cons.
Qed.

(** X11.  In mock mode nothing remembers a created collection: when the
    argument carries no [_id] of its own, and unless the clock reads 1, 2
    or 3, [getCollections] lists no collection with the identifier of the
    collection that [createCollection] returned, and [updateCollection] on
    that identifier rejects with "Collection not found". *)
Theorem created_collection_is_not_stored (this : ApiService) (clock : Clock)
    (net net' : Fetch Collection.t) (netL : Fetch (list Collection.t))
    (collection : NewCollection.t) (updates : PartialCollection.t)
    (c : Collection.t) :
  useMockData this = true →
  NewCollection._id collection = None →
  (Date_now clock < 1 ∨ 3 < Date_now clock)%Z →
  createCollection this clock net collection = Fulfilled c →
  (∀ known, getCollections this netL = Fulfilled known →
            ¬ ∃ k, In k known ∧ Collection._id k = Collection._id c)
  ∧ updateCollection this net' (Collection._id c) updates
    = Rejected (mkError "Collection not found").
Proof.
  unfold createCollection, getCollections, updateCollection.
  intros -> Hnone Hclock [= <-]. simpl Collection._id. rewrite Hnone. simpl default.
  assert (∀ k, In k getMockCollections →
               Collection._id k ≠ toString (Date_now clock)) as Hfresh.
  { simpl. intros k [<-|[<-|[<-|[]]]]; simpl; intros H;
      [ apply (toString_inj 1 (Date_now clock)) in H
      | apply (toString_inj 2 (Date_now clock)) in H
      | apply (toString_inj 3 (Date_now clock)) in H ]; lia. }
  split.
  - intros known [= <-] (k & Hin & Hid). by apply (Hfresh k Hin).
  - destruct (find _ getMockCollections) as [k|] eqn:Hfind; [|done].
    apply find_Some in Hfind as [Hin Hid]. apply String.eqb_eq in Hid.
    by destruct (Hfresh k Hin).
Qed.

Lemma created_collection_is_not_stored_witness :
  updateCollection apiService offline (toString 1700000000000)
    (rename_to "Billing v2")
  = Rejected (mkError "Collection not found").
Proof.
  destruct (created_collection_is_not_stored apiService instant offline
              offline offline billing (rename_to "Billing v2")
              (created_collection instant billing))
    as [_ Hupdate].
  - reflexivity.
  - reflexivity.
  - right. reflexivity.
  - reflexivity.
  - exact Hupdate.
Defined.

(** X12.  In mock mode nothing remembers a created environment: when the
    argument carries no [_id] of its own, and unless the clock reads 1 or
    2, [getEnvironments] lists no environment with the identifier of the
    environment that [createEnvironment] returned, and [updateEnvironment]
    on that identifier rejects with "Environment not found". *)
Theorem created_environment_is_not_stored (this : ApiService) (clock : Clock)
    (net net' : Fetch Environment.t) (netL : Fetch (list Environment.t))
    (environment : NewEnvironment.t) (updates : PartialEnvironment.t)
    (e : Environment.t) :
  useMockData this = true →
  NewEnvironment._id environment = None →
  (Date_now clock < 1 ∨ 2 < Date_now clock)%Z →
  createEnvironment this clock net environment = Fulfilled e →
  (∀ known, getEnvironments this netL = Fulfilled known →
            ¬ ∃ k, In k known ∧ Environment._id k = Environment._id e)
  ∧ updateEnvironment this net' (Environment._id e) updates
    = Rejected (mkError "Environment not found").
Proof.
  unfold createEnvironment, getEnvironments, updateEnvironment.
  intros -> Hnone Hclock [= <-]. simpl Environment._id. rewrite Hnone. simpl default.
  assert (∀ k, In k getMockEnvironments →
               Environment._id k ≠ toString (Date_now clock)) as Hfresh.
  { simpl. intros k [<-|[<-|[]]]; simpl; intros H;
      [ apply (toString_inj 1 (Date_now clock)) in H
      | apply (toString_inj 2 (Date_now clock)) in H ]; lia. }
  split.
  - intros known [= <-] (k & Hin & Hid). by apply (Hfresh k Hin).
  - destruct (find _ getMockEnvironments) as [k|] eqn:Hfind; [|done].
    apply find_Some in Hfind as [Hin Hid]. apply String.eqb_eq in Hid.
    by destruct (Hfresh k Hin).
Qed.

Lemma created_environment_is_not_stored_witness :
  updateEnvironment apiService offline (toString 1700000000000) activate
  = Rejected (mkError "Environment not found").
Proof.
  destruct (created_environment_is_not_stored apiService instant offline
              offline offline new_staging activate
              (created_environment instant new_staging))
    as [_ Hupdate].
  - reflexivity.
  - reflexivity.
  - right. reflexivity.
  - reflexivity.
  - exact Hupdate.
Defined.

(** X13.  In mock mode nothing remembers a created request: when the
    argument carries no [_id] of its own, then whatever the clock reads, no
    collection that [getCollectionById] returns lists a request with the
    identifier of the request that [createRequest] returned, and
    [updateRequest] on that identifier rejects with "Request not found" in
    every collection. *)
Theorem created_request_is_not_stored (this : ApiService)
    (clock clock' clock'' : Clock) (net net' : Fetch HttpRequest.t)
    (netF : Fetch CollectionFull.t) (collectionId collectionId' : string)
    (request : NewHttpRequest.t) (updates : PartialHttpRequest.t)
    (r : HttpRequest.t) :
  useMockData this = true →
  NewHttpRequest._id request = None →
  createRequest this clock clock' net collectionId request = Fulfilled r →
  (∀ full, getCollectionById this netF collectionId' = Fulfilled full →
           ¬ ∃ q, In q (CollectionFull.requests full)
                  ∧ HttpRequest._id q = HttpRequest._id r)
  ∧ updateRequest this clock'' net' collectionId' (HttpRequest._id r) updates
    = Rejected (mkError "Request not found").
Proof.
  unfold createRequest, getCollectionById, updateRequest.
  intros -> Hnone [= <-]. simpl HttpRequest._id. rewrite Hnone. simpl default.
  destruct (toString_not_request_id (Date_now clock) collectionId')
    as [H1 H2].
  assert (∀ q, In q (CollectionFull.requests
                       (getMockCollectionFull collectionId')) →
               HttpRequest._id q ≠ toString (Date_now clock)) as Hfresh.
  { simpl. by intros q [<-|[<-|[]]]. }
  split.
  - intros full [= <-] (q & Hin & Hid). by apply (Hfresh q Hin).
  - destruct (find _ _) as [q|] eqn:Hfind; [|done].
    apply find_Some in Hfind as [Hin Hid]. apply String.eqb_eq in Hid.
    by destruct (Hfresh q Hin).
Qed.

Lemma created_request_is_not_stored_witness :
  updateRequest apiService instant offline "1" (toString 1700000000000)
    no_request_updates
  = Rejected (mkError "Request not found").
Proof.
  destruct (created_request_is_not_stored apiService instant instant instant
              offline offline offline "1" "1" list_users no_request_updates
              (created_request instant instant list_users))
    as [_ Hupdate].
  - reflexivity.
  - reflexivity.
  - reflexivity.
  - exact Hupdate.
Defined.
